(** * ForceManualTransfer: episode extraction and the transfer run

    A shallow embedding of [plugins/doubanrankplus/__init__.py]
    (class [ForceManualTransfer]): the episode extractor [_get_episode]
    and the run [_do_transfer], with the properties of the specification
    that concern them.

    Conventions.
    - A Python [str] is the list of its code points ([pystr]); a Python
      [int] is a [Z].
    - The Unicode tables the interpreter consults ([\d], [\s], [int],
      [str.lower]) are written out for Unicode 14.
    - The operating system is an interface ([FileSystem]): every call of
      the run goes through it, may raise, and is recorded in the call
      history of the machine state. *)

From Stdlib Require Import ZArith Ascii String.
From stdpp Require Import base tactics option list sorting pretty gmap.

Local Open Scope Z_scope.

(** ** Python strings *)

Abbreviation pystr := (list Z) (only parsing).

(** Code points of a UTF-8 encoded literal (the literals of the source
    file are UTF-8). *)
Fixpoint utf8_decode (bs : list Z) : pystr :=
  match bs with
  | [] => []
  | b1 :: t1 =>
    if b1 <? 0x80 then b1 :: utf8_decode t1
    else match t1 with
    | [] => []
    | b2 :: t2 =>
      if b1 <? 0xE0 then ((b1 - 0xC0) * 64 + (b2 - 0x80)) :: utf8_decode t2
      else match t2 with
      | [] => []
      | b3 :: t3 =>
        if b1 <? 0xF0
        then ((b1 - 0xE0) * 4096 + (b2 - 0x80) * 64 + (b3 - 0x80)) :: utf8_decode t3
        else match t3 with
        | [] => []
        | b4 :: t4 =>
          ((b1 - 0xF0) * 262144 + (b2 - 0x80) * 4096 + (b3 - 0x80) * 64 + (b4 - 0x80))
            :: utf8_decode t4
        end
      end
    end
  end.

Definition bytes_of (s : string) : list Z :=
  (fun a => Z.of_N (N_of_ascii a)) <$> list_ascii_of_string s.

Definition py (s : string) : pystr := utf8_decode (bytes_of s).

(** ** Unicode classes used by [re] and [int] *)

(** The zero of every block of decimal digits (general category Nd);
    the ten digits of a block are consecutive. *)
Definition nd_zeros : list Z :=
  [48; 1632; 1776; 1984; 2406; 2534; 2662; 2790; 2918; 3046; 3174; 3302;
   3430; 3558; 3664; 3792; 3872; 4160; 4240; 6112; 6160; 6470; 6608; 6784;
   6800; 6992; 7088; 7232; 7248; 42528; 43216; 43264; 43472; 43504; 43600;
   44016; 65296; 66720; 68912; 69734; 69872; 69942; 70096; 70384; 70736;
   70864; 71248; 71360; 71472; 71904; 72016; 72784; 73040; 73120; 92768;
   92864; 93008; 120782; 120792; 120802; 120812; 120822; 123200; 123632;
   125264; 130032].

(** The decimal value of a character, for the characters [\d] matches. *)
Definition decimal_value (c : Z) : option Z :=
  (fun z => c - z) <$> List.find (fun z => (z <=? c) && (c <? z + 10)) nd_zeros.

Definition is_digit (c : Z) : bool :=
  match decimal_value c with Some _ => true | None => false end.

(** The characters [\s] matches ([str.isspace]). *)
Definition whitespace : list Z :=
  [9; 10; 11; 12; 13; 28; 29; 30; 31; 32; 133; 160; 5760; 8192; 8193; 8194;
   8195; 8196; 8197; 8198; 8199; 8200; 8201; 8202; 8232; 8233; 8239; 8287;
   12288].

Definition is_space (c : Z) : bool := bool_decide (c ∈ whitespace).

(** [int(ds)] for a string of decimal digits. *)
Definition int_digits (ds : pystr) : Z :=
  fold_left (fun acc c => 10 * acc + default 0 (decimal_value c)) ds 0.

(** ** The two regular expressions of [_get_episode] *)

(** Longest prefix of characters satisfying [p], and the rest. *)
Fixpoint span (p : Z → bool) (s : pystr) : pystr * pystr :=
  match s with
  | c :: s' => if p c then let '(a, b) := span p s' in (c :: a, b) else ([], s)
  | [] => ([], [])
  end.

(** [(\d+)] anchored at the start of [s]: greedy, at least one digit.
    The group is the last item of the pattern, so the first attempt of the
    matcher (the longest run) is the one that succeeds. *)
Definition re_digits (s : pystr) : option pystr :=
  match (span is_digit s).1 with
  | [] => None
  | ds => Some ds
  end.

(** [\s*(\d+)] anchored at the start of [s]: [\s*] takes whitespace
    greedily and gives it back one character at a time when the digits do
    not follow. *)
Fixpoint re_ws_digits (s : pystr) : option pystr :=
  match s with
  | c :: s' =>
    if is_space c then
      match re_ws_digits s' with
      | Some g => Some g
      | None => re_digits s
      end
    else re_digits s
  | [] => re_digits s
  end.

(** [(?i)] on the literals: the characters matching [e] and [p]. *)
Definition is_e (c : Z) : bool := (c =? 0x65) || (c =? 0x45).
Definition is_p (c : Z) : bool := (c =? 0x70) || (c =? 0x50).
Definition di : Z := Eval cbv in default 0 (head (py "第")).

(** [(?i)(?:e|ep|第)\s*(\d+)] anchored at the start of [s]; the
    alternatives are tried in the order they are written. The result is
    group 1. *)
Definition re_marker_here (s : pystr) : option pystr :=
  match s with
  | c :: s1 =>
    let alt_e := if is_e c then re_ws_digits s1 else None in
    let alt_ep :=
      if is_e c then
        match s1 with
        | c2 :: s2 => if is_p c2 then re_ws_digits s2 else None
        | [] => None
        end
      else None in
    let alt_di := if c =? di then re_ws_digits s1 else None in
    match alt_e with
    | Some g => Some g
    | None => match alt_ep with Some g => Some g | None => alt_di end
    end
  | [] => None
  end.

(** [re.search]: the match at the leftmost position that has one. *)
Fixpoint re_search_marker (s : pystr) : option pystr :=
  match re_marker_here s with
  | Some g => Some g
  | None => match s with _ :: s' => re_search_marker s' | [] => None end
  end.

(** [re.findall(r'(\d+)', s)]: scanning left to right, [cur] is the run
    of digits being read. *)
Fixpoint findall_from (cur : pystr) (s : pystr) : list pystr :=
  match s with
  | c :: s' =>
    if is_digit c then findall_from (cur ++ [c]) s'
    else match cur with
         | [] => findall_from [] s'
         | _ => cur :: findall_from [] s'
         end
  | [] => match cur with [] => [] | _ => [cur] end
  end.

Definition re_findall_digits (s : pystr) : list pystr := findall_from [] s.

(** ** [_get_episode] *)

Definition blacklist : list Z := [264; 265; 720; 480].

Definition valid_num (n : Z) : bool :=
  (n <? 1000) && negb (bool_decide (n ∈ blacklist)).

Definition _get_episode (filename : pystr) : option Z :=
  match re_search_marker filename with
  | Some g => Some (int_digits g)
  | None =>
    let numbers := re_findall_digits filename in
    let valid_nums := List.filter valid_num (int_digits <$> numbers) in
    last valid_nums
  end.

(** ** What the specification calls a match and a digit run *)

(** The case-insensitive spellings of the markers [e], [ep] and [第]. *)
Definition markers : list pystr :=
  Eval cbv in py <$> ["e"; "E"; "ep"; "eP"; "Ep"; "EP"; "第"]%string.

Definition no_digit_first (s : pystr) : Prop :=
  match s with c :: _ => is_digit c = false | [] => True end.

Definition no_digit_last (s : pystr) : Prop :=
  match last s with Some c => is_digit c = false | None => True end.

Definition all_digits (ds : pystr) : Prop := Forall (λ c, is_digit c = true) ds.
Definition all_spaces (ws : pystr) : Prop := Forall (λ c, is_space c = true) ws.

(** A match of the marker pattern starting at offset [i] of [s], whose
    digits are [ds]: a marker, optional whitespace, and the digits that
    follow, taken to the end of their run. *)
Definition marker_match_at (s : pystr) (i : nat) (ds : pystr) : Prop :=
  ∃ pre m ws post,
    s = pre ++ m ++ ws ++ ds ++ post ∧ length pre = i ∧ m ∈ markers ∧
    all_spaces ws ∧ ds ≠ [] ∧ all_digits ds ∧ no_digit_first post.

(** [ds] is a maximal run of digits of [s], between [pre] and [post]. *)
Definition maximal_run (s pre ds post : pystr) : Prop :=
  s = pre ++ ds ++ post ∧ ds ≠ [] ∧ all_digits ds ∧
  no_digit_last pre ∧ no_digit_first post.

(** A number survives the filter of step 2. *)
Definition survives (n : Z) : Prop := n < 1000 ∧ n ∉ blacklist.


(** ** Python values and conversions *)

(** The values a configuration field can hold. *)
Inductive pyval :=
  | PyNone
  | PyBool (b : bool)
  | PyInt (n : Z)
  | PyStr (s : pystr).

(** Whitespace [int] strips from a string: ASCII whitespace, and the
    Unicode whitespace outside ASCII. *)
Definition int_space (c : Z) : bool :=
  bool_decide (c ∈ [9; 10; 11; 12; 13; 32]) || ((128 <=? c) && is_space c).

Definition lstrip (s : pystr) : pystr := (span int_space s).2.
Definition strip (s : pystr) : pystr := reverse (lstrip (reverse (lstrip s))).

(** Digits with single underscores between them. *)
Fixpoint int_body (acc : Z) (after_digit : bool) (s : pystr) : option Z :=
  match s with
  | [] => if after_digit then Some acc else None
  | c :: s' =>
    match decimal_value c with
    | Some d => int_body (10 * acc + d) true s'
    | None => if (c =? 95) && after_digit then int_body acc false s' else None
    end
  end.

(** [int(s)] for a string; [None] when it raises [ValueError]. *)
Definition int_of_str (s : pystr) : option Z :=
  match strip s with
  | 43 :: t => int_body 0 false t
  | 45 :: t => Z.opp <$> int_body 0 false t
  | t => int_body 0 false t
  end.

(** [int(v)]; [None] when it raises. *)
Definition py_int (v : pyval) : option Z :=
  match v with
  | PyNone => None
  | PyBool b => Some (if b then 1 else 0)
  | PyInt n => Some n
  | PyStr s => int_of_str s
  end.

(** [str(n)] and [f"{n:02d}"]. *)
Definition str_of_int (n : Z) : pystr := py (pretty n).

Definition format_02d (n : Z) : pystr :=
  if (0 <=? n) && (n <? 10) then py "0" ++ str_of_int n else str_of_int n.

(** [s.lower()], on the characters whose lowercase is ASCII: the letters
    [A]-[Z] and the Kelvin sign. Every other character has a lowercase
    outside ASCII and is left as it is; a string containing one is never
    an item of [_exts], before or after. *)
Definition lower_char (c : Z) : Z :=
  if (65 <=? c) && (c <=? 90) then c + 32
  else if c =? 0x212A then 107
  else c.

Definition str_lower (s : pystr) : pystr := lower_char <$> s.

(** Python's order on strings: lexicographic on code points. *)
Fixpoint str_leb (a b : pystr) : bool :=
  match a, b with
  | [], _ => true
  | _ :: _, [] => false
  | x :: a', y :: b' =>
    if x <? y then true else if y <? x then false else str_leb a' b'
  end.

(** ** Paths *)

(** A [pathlib.Path]: the string it was made from and the segments
    joined to it with [/]. *)
Abbreviation path := (list (list Z)) (only parsing).

Definition Path (s : pystr) : path := [s].
Definition joinpath (p : path) (s : pystr) : path := p ++ [s].
Infix "//" := joinpath (at level 40, left associativity).

(** [p.name], for an entry [p] yielded by [iterdir]. *)
Definition name (p : path) : pystr := default [] (last p).

(** [s.rfind('.')] *)
Fixpoint rfind_dot (s : pystr) : option nat :=
  match s with
  | [] => None
  | c :: s' =>
    match rfind_dot s' with
    | Some i => Some (S i)
    | None => if c =? 46 then Some 0%nat else None
    end
  end.

Definition has_suffix (n : pystr) : option nat :=
  match rfind_dot n with
  | Some i => if bool_decide (0 < i < length n - 1)%nat then Some i else None
  | None => None
  end.

(** [p.suffix] and [p.stem] *)
Definition suffix (p : path) : pystr :=
  match has_suffix (name p) with Some i => drop i (name p) | None => [] end.

Definition stem (p : path) : pystr :=
  match has_suffix (name p) with Some i => take i (name p) | None => name p end.

(** [files.sort(key=lambda x: x.name)]: a stable sort. *)
Fixpoint insert_by_name (f : path) (l : list path) : list path :=
  match l with
  | [] => [f]
  | g :: l' =>
    if str_leb (name f) (name g) then f :: g :: l' else g :: insert_by_name f l'
  end.

Definition sort_by_name (l : list path) : list path := foldr insert_by_name [] l.

(** ** The plugin's fields *)

Definition _exts : list pystr :=
  Eval cbv in py <$> [".strm"; ".mp4"; ".mkv"; ".ts"; ".avi"; ".rmvb"; ".wmv";
                      ".mov"; ".flv"; ".ass"; ".srt"; ".nfo"]%string.

(** The fields [_do_transfer] reads. The three text fields are a string
    or [None]. *)
Record plugin := {
  _source_path : option pystr;
  _target_path : option pystr;
  _media_name : option pystr;
  _season : pyval;
  _transfer_type : pystr;
}.

(** Truth value of a text field: [None] and [""] are false. *)
Definition truthy (o : option pystr) : bool :=
  match o with Some (_ :: _) => true | _ => false end.

(** The string of a text field that is not [None]. *)
Definition field_str (o : option pystr) : pystr := default [] o.

(** ** The operating system and the host application *)

(** An exception, with the text [str(e)] gives. *)
Inductive exn := Exn (what : pystr).

(** [shutil.move], [shutil.copy2], [os.link] and [os.symlink]. *)
Inductive transfer_op := Move | Copy2 | Link | Symlink.

(** The file system calls of [_do_transfer], on a state [W] of the file
    system. A query answers from the state; a command gives the new state
    and the exception it raised, if any. [fs_mkdir] is
    [mkdir(parents=True, exist_ok=True)]; [fs_iterdir] gives the names of
    the entries. *)
Class FileSystem (W : Type) := {
  fs_exists : path → W → bool;
  fs_is_dir : path → W → bool;
  fs_is_file : path → W → bool;
  fs_iterdir : path → W → exn + list (list Z);
  fs_mkdir : path → W → W * option exn;
  fs_unlink : path → W → W * option exn;
  fs_transfer : transfer_op → path → path → W → W * option exn;
}.

(** A call made to the file system. *)
Inductive call :=
  | CExists (p : path)
  | CIsDir (p : path)
  | CIsFile (p : path)
  | CIterdir (p : path)
  | CMkdir (p : path)
  | CUnlink (p : path)
  | CTransfer (op : transfer_op) (src dst : path).

#[global] Instance transfer_op_eq_dec : EqDecision transfer_op.
Proof. solve_decision. Defined.

#[global] Instance call_eq_dec : EqDecision call.
Proof. solve_decision. Defined.

(** A line handed to [logger], one constructor for each call site:
    - [logger.error("【强制整理】源目录、目标目录或媒体名称为空，无法整理")]
    - [logger.error(f"【强制整理】源目录不存在：{src_dir}")]
    - [logger.info(f"【强制整理】{file.name} -> {new_filename}")]
    - [logger.error(f"【强制整理】处理文件 {file.name} 失败: {e}")] *)
Inductive log_line :=
  | ErrorEmptyConfig
  | ErrorNoSource (src_dir : path)
  | InfoTransferred (file_name new_filename : pystr)
  | ErrorFailed (file_name : pystr) (e : exn).

(** A message handed to [post_message]. *)
Record notification := { title : pystr; text : pystr }.

(** The state of a run: the file system, the calls made to it so far, the
    lines logged and the notifications posted. *)
Record state (W : Type) := {
  world : W;
  calls : list call;
  log : list log_line;
  posts : list notification;
}.
Arguments world {W} _.
Arguments calls {W} _.
Arguments log {W} _.
Arguments posts {W} _.

Definition add_call {W} (c : call) (st : state W) : state W :=
  {| world := world st; calls := calls st ++ [c]; log := log st; posts := posts st |}.
Definition set_world {W} (w : W) (st : state W) : state W :=
  {| world := w; calls := calls st; log := log st; posts := posts st |}.
Definition add_log {W} (l : log_line) (st : state W) : state W :=
  {| world := world st; calls := calls st; log := log st ++ [l]; posts := posts st |}.
Definition add_post {W} (n : notification) (st : state W) : state W :=
  {| world := world st; calls := calls st; log := log st; posts := posts st ++ [n] |}.

(** ** Statements: state and exceptions *)

Inductive result (A : Type) := Ok (a : A) | Raise (e : exn).
Arguments Ok {A} a.
Arguments Raise {A} e.

Definition M (W A : Type) : Type := state W → result A * state W.

#[global] Instance M_ret {W} : MRet (M W) := λ A a st, (Ok a, st).

#[global] Instance M_bind {W} : MBind (M W) := λ A B f m st,
  match m st with
  | (Ok a, st') => f a st'
  | (Raise e, st') => (Raise e, st')
  end.

(** [try: body  except Exception as e: handler] *)
Definition try_except {W A} (body : M W A) (handler : exn → M W A) : M W A :=
  λ st, match body st with
        | (Ok a, st') => (Ok a, st')
        | (Raise e, st') => handler e st'
        end.

Definition query {W} (c : call) (f : W → bool) : M W bool :=
  λ st, (Ok (f (world st)), add_call c st).

Definition command {W} (c : call) (f : W → W * option exn) : M W unit :=
  λ st, let r := f (world st) in
        let st' := set_world r.1 (add_call c st) in
        match r.2 with
        | None => (Ok (), st')
        | Some e => (Raise e, st')
        end.

(** [if b: body] *)
Definition when {W} (b : bool) (body : M W unit) : M W unit :=
  if b then body else mret ().

Definition logger {W} (l : log_line) : M W unit := λ st, (Ok (), add_log l st).

Definition post_message {W} (title text : pystr) : M W unit :=
  λ st, (Ok (), add_post {| title := title; text := text |} st).

Section calls.
Context {W : Type} `{!FileSystem W}.

Definition path_exists (p : path) : M W bool := query (CExists p) (fs_exists p).
Definition path_is_dir (p : path) : M W bool := query (CIsDir p) (fs_is_dir p).
Definition path_is_file (p : path) : M W bool := query (CIsFile p) (fs_is_file p).
Definition path_mkdir (p : path) : M W unit := command (CMkdir p) (fs_mkdir p).
Definition path_unlink (p : path) : M W unit := command (CUnlink p) (fs_unlink p).
Definition transfer (op : transfer_op) (src dst : path) : M W unit :=
  command (CTransfer op src dst) (fs_transfer op src dst).

Definition path_iterdir (p : path) : M W (list path) :=
  λ st, match fs_iterdir p (world st) with
        | inr names => (Ok ((λ n, p // n) <$> names), add_call (CIterdir p) st)
        | inl e => (Raise e, add_call (CIterdir p) st)
        end.

(** ** [_do_transfer] *)

(** [[f for f in entries if f.is_file() and f.suffix.lower() in self._exts]] *)
Fixpoint eligible_files (entries : list path) : M W (list path) :=
  match entries with
  | [] => mret []
  | f :: entries' =>
    is_file ← path_is_file f;
    let keep := is_file && bool_decide (str_lower (suffix f) ∈ _exts) in
    files ← eligible_files entries';
    mret (if keep then f :: files else files)
  end.

(** [f"{self._media_name} - S{season_num:02d}E{ep:02d}{ext}"] *)
Definition new_filename (media_name : pystr) (season_num ep : Z) (ext : pystr) : pystr :=
  media_name ++ py " - S" ++ format_02d season_num ++ py "E" ++ format_02d ep ++ ext.

(** The [if]/[elif] chain on [self._transfer_type]. *)
Definition transfer_by_type (transfer_type : pystr) (file new_filepath : path) : M W unit :=
  if bool_decide (transfer_type = py "move") then transfer Move file new_filepath
  else if bool_decide (transfer_type = py "copy") then transfer Copy2 file new_filepath
  else if bool_decide (transfer_type = py "link") then transfer Link file new_filepath
  else if bool_decide (transfer_type = py "softlink") then transfer Symlink file new_filepath
  else mret ().

(** The body of the loop once [ep] is known; the result is the new
    [success_count]. *)
Definition transfer_file (media_name transfer_type : pystr) (season_num : Z) (target_dir : path)
    (file : path) (ep : Z) (success_count : Z) : M W Z :=
  let ext := str_lower (suffix file) in
  let new_filename := new_filename media_name season_num ep ext in
  let new_filepath := target_dir // new_filename in
  present ← path_exists new_filepath;
  when present (path_unlink new_filepath);;
  try_except
    (transfer_by_type transfer_type file new_filepath;;
     logger (InfoTransferred (name file) new_filename);;
     mret (success_count + 1))
    (λ e, logger (ErrorFailed (name file) e);; mret success_count).

(** The [for file in files] loop, with its two counters. *)
Fixpoint transfer_files (media_name transfer_type : pystr) (season_num : Z) (target_dir : path)
    (files : list path) (fallback_ep success_count : Z) : M W Z :=
  match files with
  | [] => mret success_count
  | file :: files' =>
    let ep := _get_episode (stem file) in
    let '(ep, fallback_ep) :=
      match ep with
      | None => (fallback_ep, fallback_ep + 1)
      | Some ep => (ep, fallback_ep)
      end in
    success_count ←
      transfer_file media_name transfer_type season_num target_dir file ep success_count;
    transfer_files media_name transfer_type season_num target_dir files'
      fallback_ep success_count
  end.

(** [f"剧集: {self._media_name}\n共处理: {success_count} 个文件\n方式: {self._transfer_type}"] *)
Definition summary (media_name : pystr) (success_count : Z) (transfer_type : pystr) : pystr :=
  py "剧集: " ++ media_name ++ [10] ++ py "共处理: " ++ str_of_int success_count
    ++ py " 个文件" ++ [10] ++ py "方式: " ++ transfer_type.

Definition _do_transfer (self : plugin) : M W unit :=
  if negb (truthy (_source_path self)) || negb (truthy (_target_path self))
     || negb (truthy (_media_name self))
  then logger ErrorEmptyConfig
  else
    let src_dir := Path (field_str (_source_path self)) in
    present ← path_exists src_dir;
    missing ← (if negb present then mret true
               else is_dir ← path_is_dir src_dir; mret (negb is_dir));
    if (missing : bool) then logger (ErrorNoSource src_dir)
    else
      let season_num := default 1 (py_int (_season self)) in
      let media_name := field_str (_media_name self) in
      let target_dir :=
        Path (field_str (_target_path self)) // media_name
          // (py "Season " ++ str_of_int season_num) in
      path_mkdir target_dir;;
      entries ← path_iterdir src_dir;
      files ← eligible_files entries;
      let files := sort_by_name files in
      success_count ←
        transfer_files media_name (_transfer_type self) season_num target_dir files 1 0;
      post_message (py "强制整理成功")
        (summary media_name success_count (_transfer_type self)).
End calls.

(** ** The Sequencer and the run, as the specification describes them *)

(** The episode of each file, in the order given: the number read from
    the stem, or else the value of a counter that starts at [fallback]
    and moves on only when it is used. *)
Fixpoint sequencer (fallback : Z) (files : list path) : list (path * Z) :=
  match files with
  | [] => []
  | f :: files' =>
    match _get_episode (stem f) with
    | Some ep => (f, ep) :: sequencer fallback files'
    | None => (f, fallback) :: sequencer (fallback + 1) files'
    end
  end.

(** The transfer a value of [transfer_type] names, if it names one. *)
Definition op_of (tt : pystr) : option transfer_op :=
  if bool_decide (tt = py "move") then Some Move
  else if bool_decide (tt = py "copy") then Some Copy2
  else if bool_decide (tt = py "link") then Some Link
  else if bool_decide (tt = py "softlink") then Some Symlink
  else None.


(** The stem of the file gives no episode. *)
Definition unknown_episode (f : path) : bool :=
  match _get_episode (stem f) with None => true | Some _ => false end.

(** The file a log line is about. *)
Definition log_file (l : log_line) : option pystr :=
  match l with
  | InfoTransferred n _ | ErrorFailed n _ => Some n
  | _ => None
  end.

Definition is_info (l : log_line) : bool :=
  match l with InfoTransferred _ _ => true | _ => false end.

(** The destinations the run asked about with [exists]. *)
Definition probe (c : call) : option path :=
  match c with CExists p => Some p | _ => None end.

Definition is_transfer (c : call) : bool :=
  match c with CTransfer _ _ _ => true | _ => false end.

(** The destination of a file with its episode:
    [target_dir / f"{media_name} - S{season_num:02d}E{ep:02d}{ext}"]. *)
Definition destination (media_name : pystr) (season_num : Z) (target_dir : path)
    (file : path) (ep : Z) : path :=
  target_dir // (media_name ++ py " - S" ++ format_02d season_num ++ py "E"
                   ++ format_02d ep ++ str_lower (suffix file)).

(** A call of the loop: about the destination of one of the files. *)
Definition job_call (media_name transfer_type : pystr) (season_num : Z) (target_dir : path)
    (jobs : list (path * Z)) (c : call) : Prop :=
  ∃ f ep, (f, ep) ∈ jobs ∧
    let dst := destination media_name season_num target_dir f ep in
    c = CExists dst ∨ c = CUnlink dst ∨
    ∃ op, op_of transfer_type = Some op ∧ c = CTransfer op f dst.

(** Ascending order of file names. *)
Definition name_le (f g : path) : Prop := str_leb (name f) (name g) = true.

(** The state after some more calls. *)
Definition add_calls {W} (cs : list call) (st : state W) : state W :=
  {| world := world st; calls := calls st ++ cs; log := log st; posts := posts st |}.

Section run.
Context {W : Type} `{!FileSystem W}.

(** Transferring the files with the episodes given. *)
Fixpoint transfer_jobs (media_name transfer_type : pystr) (season_num : Z) (target_dir : path)
    (jobs : list (path * Z)) (success_count : Z) : M W Z :=
  match jobs with
  | [] => mret success_count
  | (file, ep) :: jobs' =>
    success_count ←
      transfer_file media_name transfer_type season_num target_dir file ep success_count;
    transfer_jobs media_name transfer_type season_num target_dir jobs' success_count
  end.

(** A file of the source directory the run keeps. *)
Definition eligible (w : W) (f : path) : bool :=
  fs_is_file f w && bool_decide (str_lower (suffix f) ∈ _exts).

(** The configuration passes the checks at the start of the run. *)
Definition validated (self : plugin) (w : W) : Prop :=
  truthy (_source_path self) = true ∧ truthy (_target_path self) = true ∧
  truthy (_media_name self) = true ∧
  fs_exists (Path (field_str (_source_path self))) w = true ∧
  fs_is_dir (Path (field_str (_source_path self))) w = true.

(** The state in which the loop starts: the directory [dir] made, giving
    the file system [w1], and the entries [names] of the source listed
    and examined. *)
Definition loop_start (self : plugin) (dir : path) (w1 : W) (names : list (list Z))
    (st : state W) : state W :=
  let src := Path (field_str (_source_path self)) in
  {| world := w1;
     calls := calls st ++ [CExists src; CIsDir src; CMkdir dir; CIterdir src]
                ++ (CIsFile <$> ((λ n, src // n) <$> names));
     log := log st; posts := posts st |}.
End run.

(** ** What a file system is expected to do *)

(** The properties of the file system the results below rely on, where
    they say so: removing an entry makes it absent, and a command changes
    the presence of no entry other than the ones it is given. *)
Class FileSystemLaws (W : Type) `{!FileSystem W} : Prop := {
  unlink_removes p w w' : fs_unlink p w = (w', None) → fs_exists p w' = false;
  unlink_frame p q w : q ≠ p → fs_exists q (fs_unlink p w).1 = fs_exists q w;
  transfer_frame op src dst q w :
    q ≠ src → q ≠ dst → fs_exists q (fs_transfer op src dst w).1 = fs_exists q w;
}.

(** ** A file system to run on *)

Module Disk.

Inductive node :=
  | File (data : pystr)
  | Dir
  | SymlinkTo (target : path).

#[global] Instance node_eq_dec : EqDecision node.
Proof. solve_decision. Defined.

(** The entries, by path. *)
Abbreviation disk := (gmap (list (list Z)) node) (only parsing).

Definition parent (p : path) : path := take (length p - 1) p.

(** The directory an entry is made in: the path the run was given, or a
    directory of the disk. *)
Definition is_parent_dir (p : path) (d : disk) : bool :=
  match p with [] => true | _ => bool_decide (d !! p = Some Dir) end.

Definition disk_exists (p : path) (d : disk) : bool :=
  match d !! p with Some _ => true | None => false end.

Definition disk_is_dir (p : path) (d : disk) : bool :=
  match d !! p with Some Dir => true | _ => false end.

Definition disk_is_file (p : path) (d : disk) : bool :=
  match d !! p with Some (File _) => true | _ => false end.

Definition disk_iterdir (p : path) (d : disk) : exn + list (list Z) :=
  if disk_is_dir p d then
    inr (omap (λ q : path, if bool_decide (parent q = p) then last q else None)
              (map_to_list d).*1)
  else inl (Exn (py "NotADirectoryError")).

Fixpoint mkdir_each (ps : list path) (d : disk) : disk * option exn :=
  match ps with
  | [] => (d, None)
  | p :: ps' =>
    match d !! p with
    | None => mkdir_each ps' (<[p := Dir]> d)
    | Some Dir => mkdir_each ps' d
    | Some _ => (d, Some (Exn (py "FileExistsError")))
    end
  end.

Definition disk_mkdir (p : path) (d : disk) : disk * option exn :=
  mkdir_each ((λ n, take n p) <$> seq 1 (length p)) d.

Definition disk_unlink (p : path) (d : disk) : disk * option exn :=
  match d !! p with
  | None => (d, Some (Exn (py "FileNotFoundError")))
  | Some Dir => (d, Some (Exn (py "IsADirectoryError")))
  | Some _ => (delete p d, None)
  end.

Definition disk_transfer (op : transfer_op) (src dst : path) (d : disk)
    : disk * option exn :=
  if negb (is_parent_dir (parent dst) d) then (d, Some (Exn (py "FileNotFoundError")))
  else
    match op, d !! src with
    | Symlink, _ =>
      if disk_exists dst d then (d, Some (Exn (py "FileExistsError")))
      else (<[dst := SymlinkTo src]> d, None)
    | _, None => (d, Some (Exn (py "FileNotFoundError")))
    | Move, Some n => (<[dst := n]> (delete src d), None)
    | Copy2, Some n => (<[dst := n]> d, None)
    | Link, Some n =>
      if disk_exists dst d then (d, Some (Exn (py "FileExistsError")))
      else (<[dst := n]> d, None)
    end.

#[global] Instance disk_fs : FileSystem disk := {|
  fs_exists := disk_exists;
  fs_is_dir := disk_is_dir;
  fs_is_file := disk_is_file;
  fs_iterdir := disk_iterdir;
  fs_mkdir := disk_mkdir;
  fs_unlink := disk_unlink;
  fs_transfer := disk_transfer;
|}.

(** A state with nothing done yet. *)
Definition start (d : disk) : state disk :=
  {| world := d; calls := []; log := []; posts := [] |}.

(** A source directory [/src] with the given files, and a library
    [/lib]. *)
Definition src_dir : path := Eval cbv in Path (py "/src").
Definition lib_dir : path := Eval cbv in Path (py "/lib").

Definition with_files (names : list string) : disk :=
  foldr (λ n d, <[src_dir // py n := File (py n)]> d)
        (<[src_dir := Dir]> (<[lib_dir := Dir]> ∅)) names.

Definition show (season : pyval) (transfer_type : string) : plugin :=
  {| _source_path := Some (py "/src"); _target_path := Some (py "/lib");
     _media_name := Some (py "Show"); _season := season;
     _transfer_type := py transfer_type |}.

End Disk.

(** ** The plugin in its host *)

#[global] Instance pyval_eq_dec : EqDecision pyval.
Proof. solve_decision. Defined.

(** Truth value of a Python value. *)
Definition py_truth (v : pyval) : bool :=
  match v with
  | PyNone => false
  | PyBool b => b
  | PyInt n => negb (n =? 0)
  | PyStr s => match s with [] => false | _ => true end
  end.

(** A configuration dictionary, and [config.get(key, default)]. *)
Abbreviation config := (gmap string pyval) (only parsing).

Definition config_get (c : config) (key : string) (default_ : pyval) : pyval :=
  default default_ (c !! key).

(** The attributes of the plugin object that [init_plugin] assigns:
    [_enabled], [_run_now], [_source_path], [_target_path], [_media_name],
    [_season] and [_transfer_type]. *)
Record attributes := {
  attr_enabled : pyval;
  attr_run_now : pyval;
  attr_source_path : pyval;
  attr_target_path : pyval;
  attr_media_name : pyval;
  attr_season : pyval;
  attr_transfer_type : pyval;
}.

(** Their values in the class. *)
Definition class_attributes : attributes :=
  {| attr_enabled := PyBool false; attr_run_now := PyBool false;
     attr_source_path := PyStr []; attr_target_path := PyStr [];
     attr_media_name := PyStr []; attr_season := PyInt 1;
     attr_transfer_type := PyStr (py "softlink") |}.

(** A text attribute: a string or [None]. *)
Definition as_text (v : pyval) : option (option pystr) :=
  match v with
  | PyNone => Some None
  | PyStr s => Some (Some s)
  | _ => None
  end.

(** The fields [_do_transfer] reads, when the three text attributes are a
    string or [None] and the transfer type is a string. *)
Definition plugin_of (a : attributes) : option plugin :=
  match as_text (attr_source_path a), as_text (attr_target_path a),
        as_text (attr_media_name a), attr_transfer_type a with
  | Some s, Some t, Some m, PyStr mode =>
    Some {| _source_path := s; _target_path := t; _media_name := m;
            _season := attr_season a; _transfer_type := mode |}
  | _, _, _, _ => None
  end.

(** What [init_plugin] itself hands to the host:
    [logger.info(f"触发强制手动整理任务：{self._media_name}")] and
    [self.update_config(config)]. *)
Inductive host_call :=
  | LogTriggered (media_name : pyval)
  | UpdateConfig (c : config).

(** The outcome of [init_plugin]: the attributes of the object, the
    dictionary as its caller now holds it, the calls to the host, whether
    an exception left the method, and the state of the run. *)
Record init_result (W : Type) := {
  new_self : attributes;
  new_config : option (gmap string pyval);
  host_calls : list host_call;
  outcome : result unit;
  new_state : state W;
}.
Arguments new_self {W} _.
Arguments new_config {W} _.
Arguments host_calls {W} _.
Arguments outcome {W} _.
Arguments new_state {W} _.

(** [init_plugin]. The result is [None] where the attributes are outside
    what [plugin_of] covers and the run would start. *)
Definition init_plugin {W} `{!FileSystem W} (config : option (gmap string pyval))
    (self : attributes) (st : state W) : option (init_result W) :=
  let untouched :=
    {| new_self := self; new_config := config; host_calls := [];
       outcome := Ok (); new_state := st |} in
  match config with
  | None => Some untouched
  | Some c =>
    if bool_decide (c = ∅) then Some untouched
    else
      let self :=
        {| attr_enabled := config_get c "enabled" PyNone;
           attr_run_now := config_get c "run_now" PyNone;
           attr_source_path := config_get c "source_path" PyNone;
           attr_target_path := config_get c "target_path" PyNone;
           attr_media_name := config_get c "media_name" PyNone;
           attr_season := config_get c "season" (PyInt 1);
           attr_transfer_type := config_get c "transfer_type" (PyStr (py "softlink")) |} in
      if py_truth (attr_enabled self) && py_truth (attr_run_now self) then
        match plugin_of self with
        | None => None
        | Some p =>
          let r := _do_transfer p st in
          match r.1 with
          | Ok _ =>
            let c' := <["run_now" := PyBool false]> c in
            Some {| new_self := self; new_config := Some c';
                    host_calls := [LogTriggered (attr_media_name self); UpdateConfig c'];
                    outcome := Ok (); new_state := r.2 |}
          | Raise e =>
            Some {| new_self := self; new_config := Some c;
                    host_calls := [LogTriggered (attr_media_name self)];
                    outcome := Raise e; new_state := r.2 |}
          end
        end
      else
        Some {| new_self := self; new_config := Some c; host_calls := [];
                outcome := Ok (); new_state := st |}
  end.

(** [get_state] *)
Definition get_state (self : attributes) : pyval := attr_enabled self.

(** The default configuration [get_form] returns with the form. *)
Definition form_defaults : gmap string pyval :=
  list_to_map
    [("enabled", PyBool false); ("run_now", PyBool false);
     ("source_path", PyStr []); ("target_path", PyStr []);
     ("media_name", PyStr []); ("season", PyStr (py "1"));
     ("transfer_type", PyStr (py "softlink"))]%string.


(** A log line of a failure. *)
Definition is_failure (l : log_line) : bool :=
  match l with ErrorFailed _ _ => true | _ => false end.

(** The line the loop logs for a file with its episode: the success line
    or the failure line. *)
Definition line_of (media_name : pystr) (season_num : Z) (j : path * Z) (l : log_line) : Prop :=
  l = InfoTransferred (name j.1)
        (new_filename media_name season_num j.2 (str_lower (suffix j.1))) ∨
  ∃ e, l = ErrorFailed (name j.1) e.

#[global] Arguments py : simpl never.
#[global] Arguments str_of_int : simpl never.
#[global] Arguments format_02d : simpl never.
#[global] Arguments str_lower : simpl never.
#[global] Arguments suffix : simpl never.
#[global] Arguments stem : simpl never.
#[global] Arguments name : simpl never.
#[global] Arguments _get_episode : simpl never.
#[global] Arguments sort_by_name : simpl never.
#[global] Arguments summary : simpl never.
#[global] Arguments new_filename : simpl never.
#[global] Arguments destination : simpl never.
#[global] Arguments Path : simpl never.
#[global] Arguments joinpath : simpl never.

(* ================================================================== *)
(** * Properties *)

(** ** The episode extractor *)

Example get_episode_S01E07 : _get_episode (py "Show.S01E07.1080p") = Some 7.
Proof. reflexivity. Qed.
Example get_episode_di : _get_episode (py "第 12 集 1080") = Some 12.
Proof. reflexivity. Qed.
Example get_episode_fullwidth : _get_episode (py "番組 ０７") = Some 7.
Proof. reflexivity. Qed.


Lemma digit_not_space c : is_digit c = true → is_space c = false.
Proof.
  intros Hd. destruct (is_space c) eqn:Hs; [|done].
  apply bool_decide_eq_true in Hs. unfold whitespace in Hs.
  repeat (apply elem_of_cons in Hs as [->|Hs]; [by vm_compute in Hd|]).
  by apply elem_of_nil in Hs.
Qed.

Lemma is_e_not_digit c : is_e c = true → is_digit c = false ∧ is_space c = false.
Proof.
  unfold is_e. intros [->%Z.eqb_eq | ->%Z.eqb_eq]%orb_true_iff; by vm_compute.
Qed.

Lemma is_p_not_digit c : is_p c = true → is_digit c = false ∧ is_space c = false.
Proof.
  unfold is_p. intros [->%Z.eqb_eq | ->%Z.eqb_eq]%orb_true_iff; by vm_compute.
Qed.

Lemma span_app p s : (span p s).1 ++ (span p s).2 = s.
Proof.
  induction s as [|c s IH]; simpl; [done|].
  destruct (p c); [|done]. destruct (span p s) as [a b]; simpl in *. by f_equal.
Qed.

Lemma span_all p s : Forall (λ c, p c = true) (span p s).1.
Proof.
  induction s as [|c s IH]; simpl; [constructor|].
  destruct (p c) eqn:Hc; [|constructor].
  destruct (span p s) as [a b]; simpl in *. by constructor.
Qed.

Lemma span_rest p s :
  match (span p s).2 with c :: _ => p c = false | [] => True end.
Proof.
  induction s as [|c s IH]; simpl; [done|].
  destruct (p c) eqn:Hc; [|done]. by destruct (span p s) as [a b].
Qed.

Lemma span_exact p a b :
  Forall (λ c, p c = true) a →
  match b with c :: _ => p c = false | [] => True end →
  span p (a ++ b) = (a, b).
Proof.
  intros Ha Hb. induction Ha as [|c a Hc _ IH]; simpl.
  - destruct b as [|c b]; simpl in *; [done|]. by rewrite Hb.
  - by rewrite Hc, IH.
Qed.

Lemma re_digits_complete ds post :
  ds ≠ [] → all_digits ds → no_digit_first post →
  re_digits (ds ++ post) = Some ds.
Proof.
  intros Hne Hds Hpost. unfold re_digits.
  rewrite (span_exact is_digit ds post Hds Hpost). by destruct ds.
Qed.

Lemma re_digits_sound s ds :
  re_digits s = Some ds →
  ∃ post, s = ds ++ post ∧ ds ≠ [] ∧ all_digits ds ∧ no_digit_first post.
Proof.
  unfold re_digits. intros H.
  pose proof (span_app is_digit s) as Happ.
  pose proof (span_all is_digit s) as Hall.
  pose proof (span_rest is_digit s) as Hrest.
  destruct (span is_digit s) as [a b]; simpl in *.
  destruct a as [|c a]; [done|]. injection H as <-.
  exists b. by repeat split.
Qed.

Lemma re_digits_no_digit s : no_digit_first s → re_digits s = None.
Proof.
  unfold re_digits. destruct s as [|c s]; simpl; [done|]. by intros ->.
Qed.

Lemma re_ws_digits_complete ws ds post :
  all_spaces ws → ds ≠ [] → all_digits ds → no_digit_first post →
  re_ws_digits (ws ++ ds ++ post) = Some ds.
Proof.
  unfold all_spaces, all_digits.
  intros Hws Hne Hds Hpost. induction Hws as [|c ws Hc _ IH]; simpl.
  - destruct ds as [|d ds]; [done|]. simpl.
    assert (is_digit d = true) as Hd by (by inversion_clear Hds).
    rewrite (digit_not_space d Hd).
    by apply (re_digits_complete (d :: ds)).
  - by rewrite Hc, IH.
Qed.

Lemma re_ws_digits_sound s ds :
  re_ws_digits s = Some ds →
  ∃ ws post, s = ws ++ ds ++ post ∧ all_spaces ws ∧ ds ≠ [] ∧
             all_digits ds ∧ no_digit_first post.
Proof.
  assert (∀ t, re_digits t = Some ds →
    ∃ ws post, t = ws ++ ds ++ post ∧ all_spaces ws ∧ ds ≠ [] ∧
               all_digits ds ∧ no_digit_first post) as Hbase.
  { intros t (post & Ht & ? & ? & ?)%re_digits_sound.
    exists [], post. repeat split; try done. constructor. }
  revert ds Hbase. induction s as [|c s IH]; intros ds Hbase; simpl.
  - apply Hbase.
  - destruct (is_space c) eqn:Hc; [|apply Hbase].
    destruct (re_ws_digits s) as [g|] eqn:Hg; [|apply Hbase].
    intros [= <-]. clear Hbase.
    destruct (IH g) as (ws & post & -> & ? & ? & ? & ?); [|done|].
    + intros t (post & Ht & ? & ? & ?)%re_digits_sound.
      exists [], post. repeat split; try done. constructor.
    + exists (c :: ws), post. repeat split; try done. by constructor.
Qed.

Lemma re_ws_digits_no_start c s :
  is_digit c = false → is_space c = false → re_ws_digits (c :: s) = None.
Proof. intros Hd Hs. simpl. rewrite Hs. by apply re_digits_no_digit. Qed.

Lemma is_e_marker c : is_e c = true → [c] ∈ markers.
Proof.
  unfold is_e, markers.
  intros [->%Z.eqb_eq | ->%Z.eqb_eq]%orb_true_iff; set_solver.
Qed.

Lemma is_ep_marker c p : is_e c = true → is_p p = true → [c; p] ∈ markers.
Proof.
  unfold is_e, is_p, markers.
  intros [->%Z.eqb_eq | ->%Z.eqb_eq]%orb_true_iff
         [->%Z.eqb_eq | ->%Z.eqb_eq]%orb_true_iff; set_solver.
Qed.

Lemma marker_cases m :
  m ∈ markers →
  (∃ c, m = [c] ∧ is_e c = true) ∨
  (∃ c p, m = [c; p] ∧ is_e c = true ∧ is_p p = true) ∨
  m = [di].
Proof.
  unfold markers. intros Hm.
  repeat (apply elem_of_cons in Hm as [->|Hm]); [..|by apply elem_of_nil in Hm];
    first [ by left; eexists | by right; left; do 2 eexists | by right; right ].
Qed.

Lemma re_marker_here_complete m ws ds post :
  m ∈ markers → all_spaces ws → ds ≠ [] → all_digits ds → no_digit_first post →
  re_marker_here (m ++ ws ++ ds ++ post) = Some ds.
Proof.
  intros Hm Hws Hne Hds Hpost.
  pose proof (re_ws_digits_complete ws ds post Hws Hne Hds Hpost) as Hg.
  destruct (marker_cases m Hm) as [(c & -> & Hc)|[(c & p & -> & Hc & Hp)| ->]];
    simpl app; unfold re_marker_here.
  - by rewrite Hc, Hg.
  - destruct (is_p_not_digit p Hp) as [Hpd Hps].
    by rewrite Hc, Hp, Hg, (re_ws_digits_no_start p _ Hpd Hps).
  - change (is_e di) with false. by rewrite Z.eqb_refl.
Qed.

Lemma re_marker_here_sound s ds :
  re_marker_here s = Some ds → marker_match_at s 0 ds.
Proof.
  assert (∀ m t, m ∈ markers → re_ws_digits t = Some ds →
                 marker_match_at (m ++ t) 0 ds) as Hmk.
  { intros m t Hm (ws & post & -> & ? & ? & ? & ?)%re_ws_digits_sound.
    by exists [], m, ws, post. }
  unfold re_marker_here. destruct s as [|c s1]; [done|].
  destruct (is_e c) eqn:Hc.
  - assert ((c =? di) = false) as ->.
    { revert Hc. unfold is_e.
      by intros [->%Z.eqb_eq | ->%Z.eqb_eq]%orb_true_iff. }
    destruct (re_ws_digits s1) as [g|] eqn:Hg.
    { intros [= <-]. by apply (Hmk [c]); [apply is_e_marker|]. }
    destruct s1 as [|p s2]; [done|].
    destruct (is_p p) eqn:Hp; [|done].
    destruct (re_ws_digits s2) as [g|] eqn:Hg2; [|done].
    intros [= <-]. by apply (Hmk [c; p]); [apply is_ep_marker|].
  - destruct (c =? di) eqn:Hd; [|done].
    apply Z.eqb_eq in Hd as ->. intros Hg.
    apply (Hmk [di]); [|done]. unfold markers. set_solver.
Qed.

Lemma marker_match_at_tail c s i ds :
  marker_match_at (c :: s) (S i) ds ↔ marker_match_at s i ds.
Proof.
  split.
  - intros (pre & m & ws & post & Hs & Hlen & ?).
    destruct pre as [|c' pre]; [done|]. simplify_eq/=.
    by exists pre, m, ws, post.
  - intros (pre & m & ws & post & -> & <- & ?).
    by exists (c :: pre), m, ws, post.
Qed.

Lemma marker_match_at_0 s ds :
  marker_match_at s 0 ds ↔ re_marker_here s = Some ds.
Proof.
  split; [|apply re_marker_here_sound].
  intros (pre & m & ws & post & -> & Hlen & ? & ? & ? & ? & ?).
  destruct pre; [|done]. by apply (re_marker_here_complete m ws ds post).
Qed.

Lemma re_search_marker_eq s :
  re_search_marker s =
  match re_marker_here s with
  | Some g => Some g
  | None => match s with _ :: s' => re_search_marker s' | [] => None end
  end.
Proof. by destruct s. Qed.

(** [re.search] returns the digits of the leftmost match. *)
Lemma re_search_marker_first s i ds :
  marker_match_at s i ds →
  (∀ j ds', (j < i)%nat → ¬ marker_match_at s j ds') →
  re_search_marker s = Some ds.
Proof.
  revert s. induction i as [|i IH]; intros s Hm Hfirst;
    rewrite re_search_marker_eq.
  - apply marker_match_at_0 in Hm. by rewrite Hm.
  - destruct s as [|c s].
    { destruct Hm as (pre & ? & ? & ? & Hs & Hlen & _). by destruct pre. }
    destruct (re_marker_here (c :: s)) as [g|] eqn:Hg.
    { apply marker_match_at_0 in Hg. destruct (Hfirst 0%nat g); [lia|done]. }
    apply IH; [by apply marker_match_at_tail in Hm|].
    intros j ds' Hj Hm'. apply (Hfirst (S j) ds'); [lia|].
    by apply marker_match_at_tail.
Qed.

Lemma re_search_marker_Some s ds :
  re_search_marker s = Some ds → ∃ i, marker_match_at s i ds.
Proof.
  induction s as [|c s IH]; rewrite re_search_marker_eq; [done|].
  destruct (re_marker_here (c :: s)) as [g|] eqn:Hg.
  - intros [= <-]. exists 0%nat. by apply marker_match_at_0.
  - intros [i Hi]%IH. exists (S i). by apply marker_match_at_tail.
Qed.

Lemma re_search_marker_None s :
  re_search_marker s = None ↔ ∀ i ds, ¬ marker_match_at s i ds.
Proof.
  split.
  - induction s as [|c s IH]; rewrite re_search_marker_eq.
    + intros _ i ds (pre & m & ? & ? & Hs & _ & Hm & _).
      apply marker_cases in Hm as [(? & -> & _)|[(? & ? & -> & _)| ->]];
        by destruct pre.
    + destruct (re_marker_here (c :: s)) as [g|] eqn:Hg; [done|].
      intros Hs [|i] ds Hm.
      * apply marker_match_at_0 in Hm. congruence.
      * apply marker_match_at_tail in Hm. by apply (IH Hs i ds).
  - intros Hno. destruct (re_search_marker s) as [g|] eqn:Hg; [|done].
    apply re_search_marker_Some in Hg as [i Hi]. by destruct (Hno i g).
Qed.

(** *** [re.findall] and the maximal digit runs *)

Lemma findall_from_digits cur ds rest :
  all_digits ds → findall_from cur (ds ++ rest) = findall_from (cur ++ ds) rest.
Proof.
  unfold all_digits. intros Hds. revert cur.
  induction Hds as [|d ds Hd _ IH]; intros cur; simpl.
  - by rewrite app_nil_r.
  - by rewrite Hd, IH, <-app_assoc.
Qed.

Lemma findall_from_flush cur s :
  cur ≠ [] → no_digit_first s → findall_from cur s = cur :: findall_from [] s.
Proof.
  intros Hcur Hs. destruct s as [|c s]; simpl in *.
  - by destruct cur.
  - rewrite Hs. by destruct cur.
Qed.

Lemma no_digit_last_cons c s : s ≠ [] → no_digit_last (c :: s) ↔ no_digit_last s.
Proof. unfold no_digit_last. by destruct s. Qed.

Lemma findall_from_prefix cur pre rest :
  no_digit_last pre → (pre = [] → cur = []) →
  findall_from cur (pre ++ rest) = findall_from cur pre ++ findall_from [] rest.
Proof.
  revert cur. induction pre as [|c pre IH]; intros cur Hlast Hnil.
  - by rewrite Hnil.
  - simpl. destruct (decide (pre = [])) as [->|Hne].
    + unfold no_digit_last in Hlast. simpl in *. rewrite Hlast.
      by destruct cur.
    + apply no_digit_last_cons in Hlast; [|done].
      destruct (is_digit c); [by apply IH|].
      destruct cur; simpl; by rewrite IH.
Qed.

(** The runs of [re.findall] around a maximal run. *)
Lemma findall_maximal_run s pre ds post :
  maximal_run s pre ds post →
  re_findall_digits s =
  re_findall_digits pre ++ ds :: re_findall_digits post.
Proof.
  intros (-> & Hne & Hds & Hpre & Hpost). unfold re_findall_digits.
  rewrite findall_from_prefix by done. f_equal.
  rewrite findall_from_digits by done. by apply findall_from_flush.
Qed.

Lemma no_digit_last_snoc s c : is_digit c = false → no_digit_last (s ++ [c]).
Proof. unfold no_digit_last. by rewrite last_snoc. Qed.

Lemma no_digit_last_app s t : t ≠ [] → no_digit_last t → no_digit_last (s ++ t).
Proof.
  unfold no_digit_last. intros Hne.
  destruct (last t) as [c|] eqn:Hl.
  - apply last_Some in Hl as [t' ->]. by rewrite app_assoc, last_snoc.
  - by apply last_None in Hl.
Qed.

(** Every item of [re.findall] is a maximal run of digits. *)
Lemma findall_from_sound s cur r :
  all_digits cur → r ∈ findall_from cur s →
  ∃ pre post, cur ++ s = pre ++ r ++ post ∧ r ≠ [] ∧ all_digits r ∧
              no_digit_first post ∧ no_digit_last pre.
Proof.
  revert cur. induction s as [|c s IH]; intros cur Hcur; simpl.
  - destruct cur as [|d cur]; [by intros ?%elem_of_nil|].
    intros ->%list_elem_of_singleton. exists [], []. by rewrite !app_nil_r.
  - destruct (is_digit c) eqn:Hc.
    + intros Hr. destruct (IH (cur ++ [c])) as (pre & post & Heq & ? & ? & ? & Hl);
        [by apply Forall_app; split; [|constructor]|done|].
      exists pre, post. by rewrite <-Heq, <-app_assoc.
    + assert (r ∈ findall_from [] s →
        ∃ pre post, cur ++ c :: s = pre ++ r ++ post ∧ r ≠ [] ∧ all_digits r ∧
                    no_digit_first post ∧ no_digit_last pre) as Hlater.
      { intros Hr. destruct (IH [] (List.Forall_nil _) Hr) as (pre & post & Heq & ? & ? & ? & Hl).
        simpl in Heq. subst s. exists (cur ++ c :: pre), post.
        rewrite <-!app_assoc. repeat split; try done.
        destruct (decide (pre = [])) as [->|Hne].
        - by apply no_digit_last_snoc.
        - apply no_digit_last_app; [done|]. by apply no_digit_last_cons. }
      destruct cur as [|d cur]; [done|].
      intros [->|Hr]%elem_of_cons; [|by apply Hlater].
      exists [], (c :: s). by repeat split.
Qed.

Lemma findall_sound s r :
  r ∈ re_findall_digits s → ∃ pre post, maximal_run s pre r post.
Proof.
  intros Hr. destruct (findall_from_sound s [] r) as (pre & post & ? & ? & ? & ? & Hl);
    [constructor|done|].
  by exists pre, post.
Qed.

Lemma findall_complete s pre r post :
  maximal_run s pre r post → r ∈ re_findall_digits s.
Proof. intros ->%findall_maximal_run. set_solver. Qed.

Lemma valid_num_survives n : valid_num n = true ↔ survives n.
Proof.
  unfold valid_num, survives.
  rewrite andb_true_iff, Z.ltb_lt, negb_true_iff, bool_decide_eq_false. done.
Qed.

Lemma filter_none {A} (f : A → bool) (l : list A) :
  (∀ x, x ∈ l → f x = false) → List.filter f l = [].
Proof.
  induction l as [|x l IH]; intros Hf; simpl; [done|].
  rewrite (Hf x) by (by left). apply IH. intros y Hy. apply Hf. by right.
Qed.

Lemma maximal_run_later s pre ds post p1 r p2 :
  maximal_run s pre ds post → maximal_run post p1 r p2 →
  maximal_run s (pre ++ ds ++ p1) r p2 ∧ (length pre < length (pre ++ ds ++ p1))%nat.
Proof.
  intros (-> & Hne & Hds & Hpre & Hpost) (-> & Hr & Hrd & Hp1 & Hp2).
  split; [|rewrite !length_app; destruct ds; simpl; [done|lia]].
  repeat split; try done; [by rewrite <-!app_assoc|].
  destruct p1 as [|c p1].
  - destruct r as [|d r]; [done|]. simpl in Hpost.
    apply Forall_cons in Hrd as [Hd _]. congruence.
  - rewrite app_assoc. by apply no_digit_last_app.
Qed.

(** C1. [_get_episode] returns the number of the first match of the
    marker pattern [(e|ep|第)], optional whitespace, digits (case
    insensitive) when the stem has one; otherwise the last maximal run of
    digits whose value is below 1000 and not one of 264, 265, 720, 480;
    otherwise [None]. For ["Show.1080p.03"] it returns 3, for
    ["Show.Special"] it returns [None]. *)
Theorem get_episode_spec :
  (∀ s : pystr,
    (∀ i ds, marker_match_at s i ds →
       (∀ j ds', (j < i)%nat → ¬ marker_match_at s j ds') →
       _get_episode s = Some (int_digits ds)) ∧
    ((∀ i ds, ¬ marker_match_at s i ds) →
       (∀ pre ds post, maximal_run s pre ds post → survives (int_digits ds) →
          (∀ pre' ds' post', maximal_run s pre' ds' post' →
             (length pre < length pre')%nat → ¬ survives (int_digits ds')) →
          _get_episode s = Some (int_digits ds)) ∧
       ((∀ pre ds post, maximal_run s pre ds post → ¬ survives (int_digits ds)) →
          _get_episode s = None))) ∧
  _get_episode (py "Show.1080p.03") = Some 3 ∧
  _get_episode (py "Show.Special") = None.
Proof.
  split; [|by vm_compute]. intros s. split.
  - intros i ds Hm Hfirst. unfold _get_episode.
    by rewrite (re_search_marker_first s i ds Hm Hfirst).
  - intros Hno%re_search_marker_None. unfold _get_episode. rewrite Hno. split.
    + intros pre ds post Hrun Hok%valid_num_survives Hlast.
      rewrite (findall_maximal_run _ _ _ _ Hrun), fmap_app, fmap_cons.
      rewrite List.filter_app. simpl. rewrite Hok.
      rewrite (filter_none _ (int_digits <$> re_findall_digits post)).
      { by rewrite last_snoc. }
      intros n (r & -> & Hr)%list_elem_of_fmap.
      apply findall_sound in Hr as (p1 & p2 & Hr).
      destruct (maximal_run_later _ _ _ _ _ _ _ Hrun Hr) as [Hr' Hlen].
      specialize (Hlast _ _ _ Hr' Hlen). rewrite <-valid_num_survives in Hlast.
      by destruct (valid_num (int_digits r)).
    + intros Hbad. rewrite filter_none; [done|].
      intros n (r & -> & Hr)%list_elem_of_fmap.
      apply findall_sound in Hr as (p1 & p2 & Hr).
      specialize (Hbad _ _ _ Hr). rewrite <-valid_num_survives in Hbad.
      by destruct (valid_num (int_digits r)).
Qed.

Lemma get_episode_spec_witness :
  _get_episode (py "E07") = Some 7 ∧
  _get_episode (py "7") = Some 7 ∧
  _get_episode (py "Show.Special") = None.
Proof.
  pose proof (proj1 get_episode_spec) as Hspec.
  assert (∀ s, re_search_marker s = None → ∀ i ds, ¬ marker_match_at s i ds) as Hnone.
  { intros s. apply re_search_marker_None. }
  split; [|split].
  - apply (proj1 (Hspec (py "E07")) 0%nat (py "07")); [|lia].
    exists [], (py "E"), [], []. split_and!; try done.
    + apply (bool_decide_unpack _). by vm_compute.
    + constructor.
    + by repeat constructor.
  - apply (proj1 (proj2 (Hspec (py "7")) (Hnone (py "7") eq_refl)) [] (py "7") []).
    + split_and!; try done. by repeat constructor.
    + by apply valid_num_survives.
    + intros pre' ds' post' (Heq & Hne & _) Hlen.
      apply (f_equal length) in Heq. rewrite !length_app in Heq.
      destruct ds'; simpl in *; [done|lia].
  - apply (proj2 (proj2 (Hspec (py "Show.Special")) (Hnone (py "Show.Special") eq_refl))).
    intros pre ds post Hr%findall_complete. vm_compute in Hr.
    by apply elem_of_nil in Hr.
Defined.

(** ** The run *)

Lemma pair_of_fst {A B} (r : A * B) (a : A) : r.1 = a → r = (a, r.2).
Proof. destruct r; simpl; congruence. Qed.

(** The literals stay as they are written. *)
#[global] Opaque py.

Ltac unfold_run :=
  unfold transfer_file, transfer_by_type, transfer, path_exists, path_unlink,
    path_mkdir, path_is_dir, path_is_file, path_iterdir, when, query, command,
    try_except, logger, post_message, mbind, M_bind, mret, M_ret in *.

Ltac run_cases :=
  unfold_run; simpl in *;
  repeat match goal with
    | |- context [fs_exists ?p ?w] => destruct (fs_exists p w) eqn:?; simpl in *
    | |- context [fs_unlink ?p ?w] => destruct (fs_unlink p w) as [? [?|]] eqn:?; simpl in *
    | |- context [fs_transfer ?o ?a ?b ?w] =>
        destruct (fs_transfer o a b w) as [? [?|]] eqn:?; simpl in *
    | |- context [bool_decide (?a = ?b)] => destruct (bool_decide (a = b)) eqn:?; simpl in *
    end.

Ltac norm_state :=
  unfold set_world, add_call, add_calls, add_log, add_post;
  simpl; rewrite <-?app_assoc; simpl.

Section run_facts.
Context {W : Type} `{!FileSystem W}.
Implicit Types (st : state W) (f dir : path) (media tt : pystr) (n ep sc : Z).

Local Abbreviation dest := destination.

Lemma transfer_file_posts media tt n dir f ep sc st :
  posts (transfer_file media tt n dir f ep sc st).2 = posts st.
Proof. by run_cases. Qed.

(** The calls one file makes: it asks whether the destination exists,
    removes it if so, and makes the transfer that [tt] names. *)
Lemma transfer_file_calls media tt n dir f ep sc st :
  ∃ cs, calls (transfer_file media tt n dir f ep sc st).2
        = calls st ++ CExists (dest media n dir f ep) :: cs ∧
        Forall (λ c, c = CUnlink (dest media n dir f ep) ∨
                     ∃ op, op_of tt = Some op ∧
                           c = CTransfer op f (dest media n dir f ep)) cs.
Proof.
  unfold op_of. run_cases; rewrite <-?app_assoc; simpl;
    eexists; (split; [reflexivity|]);
    repeat (apply List.Forall_cons); try apply List.Forall_nil;
    first [by left | by right; eexists].
Qed.

(** A file that is dealt with leaves one log line; the count goes up
    when the line is the one of a success. *)
Lemma transfer_file_Ok media tt n dir f ep sc st sc' st' :
  transfer_file media tt n dir f ep sc st = (Ok sc', st') →
  ∃ cs l, calls st' = calls st ++ CExists (dest media n dir f ep) :: cs ∧
          omap probe cs = [] ∧
          log st' = log st ++ [l] ∧ log_file l = Some (name f) ∧
          sc' = sc + (if is_info l then 1 else 0) ∧
          (op_of tt = None → is_info l = true).
Proof.
  unfold op_of. run_cases; intros; simplify_eq/=; rewrite <-?app_assoc; simpl;
    do 2 eexists; split_and!; try reflexivity; try done; simpl; lia.
Qed.

(** With a transfer type that names no transfer, a file only has its
    destination removed. *)
Lemma transfer_file_no_op `{!FileSystemLaws W} media tt n dir f ep sc st sc' st' :
  op_of tt = None →
  transfer_file media tt n dir f ep sc st = (Ok sc', st') →
  fs_exists (dest media n dir f ep) (world st') = false ∧
  ∀ q, fs_exists q (world st) = false → fs_exists q (world st') = false.
Proof.
  unfold op_of, destination, new_filename. intros Hnone.
  match goal with |- _ → ?G => set (Goal := G) end.
  revert Hnone. run_cases; intros; simplify_eq/=; subst Goal; simpl; try done.
  split; [by eapply unlink_removes|]. intros q Hq.
  match goal with H : fs_unlink ?p _ = _ |- _ =>
    destruct (decide (q = p)) as [->|Hne]; [congruence|] end.
  match goal with H : fs_unlink ?p ?w = (?w', _) |- _ =>
    change w' with (w', @None exn).1; rewrite <-H end.
  by rewrite unlink_frame.
Qed.

(** The loop is the transfer of the files with the episodes of the
    Sequencer. *)
Lemma transfer_files_jobs media tt n dir files fb sc st :
  transfer_files media tt n dir files fb sc st
  = transfer_jobs media tt n dir (sequencer fb files) sc st.
Proof.
  revert fb sc st. induction files as [|f files IH]; intros fb sc st; [done|].
  simpl. destruct (_get_episode (stem f)) as [ep|]; simpl;
    unfold mbind, M_bind;
    destruct (transfer_file _ _ _ _ _ _ _ _) as [[sc'|e] st']; by rewrite ?IH.
Qed.

Lemma transfer_jobs_cons media tt n dir f ep jobs sc st :
  transfer_jobs media tt n dir ((f, ep) :: jobs) sc st =
  match transfer_file media tt n dir f ep sc st with
  | (Ok sc', st') => transfer_jobs media tt n dir jobs sc' st'
  | (Raise e, st') => (Raise e, st')
  end.
Proof. done. Qed.

Lemma transfer_jobs_posts media tt n dir jobs sc st :
  posts (transfer_jobs media tt n dir jobs sc st).2 = posts st.
Proof.
  revert sc st. induction jobs as [|[f ep] jobs IH]; intros sc st; [done|].
  rewrite transfer_jobs_cons.
  pose proof (transfer_file_posts media tt n dir f ep sc st) as Hp.
  destruct (transfer_file _ _ _ _ _ _ _ _) as [[sc'|e] st']; simpl in *;
    by rewrite ?IH.
Qed.

Lemma transfer_jobs_calls media tt n dir jobs sc st :
  ∃ cs, calls (transfer_jobs media tt n dir jobs sc st).2 = calls st ++ cs ∧
        Forall (job_call media tt n dir jobs) cs.
Proof.
  revert sc st. induction jobs as [|[f ep] jobs IH]; intros sc st.
  { exists []. by rewrite app_nil_r. }
  rewrite transfer_jobs_cons.
  destruct (transfer_file_calls media tt n dir f ep sc st) as (cs & Hcs & Hall).
  assert (Forall (job_call media tt n dir ((f, ep) :: jobs))
                 (CExists (dest media n dir f ep) :: cs)) as Hhead.
  { constructor; [exists f, ep; split; [by left|by left]|].
    eapply Forall_impl; [done|]. intros c Hc. exists f, ep.
    split; [by left|]. by right. }
  destruct (transfer_file _ _ _ _ _ _ _ _) as [[sc'|e] st']; simpl in *.
  - destruct (IH sc' st') as (cs' & Hcs' & Hall').
    exists (CExists (dest media n dir f ep) :: cs ++ cs').
    rewrite Hcs', Hcs, <-app_assoc. split; [done|].
    rewrite app_comm_cons. apply Forall_app. split; [done|].
    eapply Forall_impl; [done|]. intros c (g & k & Hin & Hc).
    exists g, k. split; [by right|done].
  - by eexists.
Qed.

(** What a loop that ends has done: one question and one log line for
    each file, in order. *)
Lemma transfer_jobs_Ok media tt n dir jobs sc st sc' st' :
  transfer_jobs media tt n dir jobs sc st = (Ok sc', st') →
  ∃ cs ls, calls st' = calls st ++ cs ∧
           omap probe cs = (λ j, dest media n dir j.1 j.2) <$> jobs ∧
           log st' = log st ++ ls ∧
           omap log_file ls = (λ j, name j.1) <$> jobs ∧
           sc' = sc + Z.of_nat (length (List.filter is_info ls)) ∧
           (op_of tt = None → length (List.filter is_info ls) = length jobs).
Proof.
  revert sc st. induction jobs as [|[f ep] jobs IH]; intros sc st.
  { intros [= <- <-]. exists [], []. rewrite !app_nil_r.
    split_and!; try done. simpl. lia. }
  rewrite transfer_jobs_cons.
  destruct (transfer_file _ _ _ _ _ _ _ _) as [[sc1|e] st1] eqn:Hfile; [|done].
  apply transfer_file_Ok in Hfile as (cs1 & l & Hc1 & Hp1 & Hl1 & Hf1 & Hsc1 & Hno1).
  intros (cs & ls & Hc & Hp & Hl & Hf & Hsc & Hno)%IH.
  exists (CExists (dest media n dir f ep) :: cs1 ++ cs), (l :: ls).
  rewrite Hc, Hc1, Hl, Hl1, <-!app_assoc.
  assert (omap log_file (l :: ls) = name f :: omap log_file ls) as Hfl.
  { simpl. by rewrite Hf1. }
  assert (omap probe (CExists (dest media n dir f ep) :: cs1 ++ cs)
          = dest media n dir f ep :: omap probe cs) as Hpr.
  { simpl. by rewrite omap_app, Hp1. }
  rewrite Hfl, Hpr, Hp, Hf. split_and!; try done.
  - simpl. destruct (is_info l); simpl; lia.
  - intros Hnone. simpl. rewrite (Hno1 Hnone). simpl. by rewrite (Hno Hnone).
Qed.

Lemma transfer_jobs_no_op `{!FileSystemLaws W} media tt n dir jobs sc st sc' st' :
  op_of tt = None →
  transfer_jobs media tt n dir jobs sc st = (Ok sc', st') →
  (∀ j, j ∈ jobs → fs_exists (dest media n dir j.1 j.2) (world st') = false) ∧
  ∀ q, fs_exists q (world st) = false → fs_exists q (world st') = false.
Proof.
  intros Hnone. revert sc st. induction jobs as [|[f ep] jobs IH]; intros sc st.
  { intros [= <- <-]. split; [by intros j ?%elem_of_nil|done]. }
  rewrite transfer_jobs_cons.
  destruct (transfer_file _ _ _ _ _ _ _ _) as [[sc1|e] st1] eqn:Hfile; [|done].
  apply transfer_file_no_op in Hfile as [Hgone Hkeep]; [|done].
  intros [Hjobs Hkeep']%IH. split; [|by eauto].
  intros j [->|Hj]%elem_of_cons; [by apply Hkeep'|by apply Hjobs].
Qed.
End run_facts.

(** ** The order of the files *)

Lemma str_leb_total a b : str_leb a b = true ∨ str_leb b a = true.
Proof.
  revert b. induction a as [|x a IH]; intros [|y b]; simpl; auto.
  destruct (Z.ltb_spec x y), (Z.ltb_spec y x); auto; lia.
Qed.

Lemma str_leb_trans a b c :
  str_leb a b = true → str_leb b c = true → str_leb a c = true.
Proof.
  revert b c. induction a as [|x a IH]; intros [|y b] [|z c]; simpl; try done.
  destruct (Z.ltb_spec x y), (Z.ltb_spec y x), (Z.ltb_spec y z), (Z.ltb_spec z y),
    (Z.ltb_spec x z), (Z.ltb_spec z x); try done; try lia.
  apply IH.
Qed.

Lemma str_leb_antisym a b : str_leb a b = true → str_leb b a = true → a = b.
Proof.
  revert b. induction a as [|x a IH]; intros [|y b]; simpl; try done.
  destruct (Z.ltb_spec x y), (Z.ltb_spec y x); try done; try lia.
  intros. f_equal; [lia|by apply IH].
Qed.

#[global] Instance name_le_trans : Transitive name_le.
Proof. intros f g h. apply str_leb_trans. Qed.

Lemma insert_by_name_perm f l : insert_by_name f l ≡ₚ f :: l.
Proof.
  induction l as [|g l IH]; simpl; [done|].
  destruct (str_leb (name f) (name g)); [done|].
  by rewrite IH, Permutation_swap.
Qed.

Lemma sort_by_name_perm l : sort_by_name l ≡ₚ l.
Proof.
  induction l as [|f l IH]; [done|].
  change (sort_by_name (f :: l)) with (insert_by_name f (sort_by_name l)).
  by rewrite insert_by_name_perm, IH.
Qed.

Lemma insert_by_name_sorted f l :
  Sorted name_le l → Sorted name_le (insert_by_name f l).
Proof.
  induction 1 as [|g l Hl IH Hhd]; simpl; [by repeat constructor|].
  destruct (str_leb (name f) (name g)) eqn:Hfg.
  - by repeat constructor.
  - constructor; [done|].
    assert (name_le g f) as Hgf.
    { unfold name_le. destruct (str_leb_total (name f) (name g)); congruence. }
    destruct Hhd as [|h l Hgh]; simpl; [by constructor|].
    destruct (str_leb (name f) (name h)); by constructor.
Qed.

Lemma sort_by_name_sorted l : StronglySorted name_le (sort_by_name l).
Proof.
  apply Sorted_StronglySorted; [apply _|].
  induction l as [|f l IH]; [constructor|].
  change (sort_by_name (f :: l)) with (insert_by_name f (sort_by_name l)).
  by apply insert_by_name_sorted.
Qed.

(** ** The run, step by step *)

Lemma add_calls_nil {W} (st : state W) : add_calls [] st = st.
Proof. destruct st. unfold add_calls. simpl. by rewrite app_nil_r. Qed.

Section run_steps.
Context {W : Type} `{!FileSystem W}.
Implicit Types (st : state W).

Lemma eligible_files_run entries st :
  eligible_files entries st
  = (Ok (List.filter (eligible (world st)) entries),
     add_calls (CIsFile <$> entries) st).
Proof.
  revert st. induction entries as [|f entries IH]; intros st; simpl.
  { by rewrite add_calls_nil. }
  unfold_run. simpl. rewrite IH. unfold eligible, add_calls, add_call. simpl.
  rewrite <-app_assoc. simpl.
  by destruct (fs_is_file f (world st) && _).
Qed.

(** The run of a configuration that passes the checks. *)
Lemma do_transfer_validated self st :
  validated self (world st) →
  let src := Path (field_str (_source_path self)) in
  let n := default 1 (py_int (_season self)) in
  let media := field_str (_media_name self) in
  let tt := _transfer_type self in
  let dir := Path (field_str (_target_path self)) // media
               // (py "Season " ++ str_of_int n) in
  _do_transfer self st =
  match fs_mkdir dir (world st) with
  | (w1, Some e) =>
    (Raise e, {| world := w1; calls := calls st ++ [CExists src; CIsDir src; CMkdir dir];
                 log := log st; posts := posts st |})
  | (w1, None) =>
    match fs_iterdir src w1 with
    | inl e =>
      (Raise e, {| world := w1;
                   calls := calls st ++ [CExists src; CIsDir src; CMkdir dir; CIterdir src];
                   log := log st; posts := posts st |})
    | inr names =>
      let files := sort_by_name (List.filter (eligible w1) ((λ n, src // n) <$> names)) in
      match transfer_jobs media tt n dir (sequencer 1 files) 0
              (loop_start self dir w1 names st) with
      | (Ok sc, st2) =>
        (Ok (), add_post {| title := py "强制整理成功"; text := summary media sc tt |} st2)
      | (Raise e, st2) => (Raise e, st2)
      end
    end
  end.
Proof.
  intros (Hs & Ht & Hm & Hex & Hdir). simpl.
  unfold _do_transfer. rewrite Hs, Ht, Hm. simpl.
  unfold_run. simpl. rewrite Hex. simpl. rewrite Hdir. simpl.
  destruct (fs_mkdir _ _) as [w1 [e|]]; simpl.
  { norm_state. done. }
  destruct (fs_iterdir _ _) as [e|names]; simpl.
  { norm_state. done. }
  rewrite eligible_files_run. simpl.
  rewrite transfer_files_jobs. unfold loop_start. norm_state. done.
Qed.
End run_steps.

(** ** Validation *)

(** C4. When the source path, the target path or the media name is empty,
    or the source path does not exist or is not a directory, the run
    returns at once: the file system is as it was, the only calls made
    ask about the source path, one error is logged and nothing is
    posted. *)
Theorem validation_failure_aborts {W} `{!FileSystem W} (self : plugin) (st : state W) :
  let src := Path (field_str (_source_path self)) in
  truthy (_source_path self) = false ∨ truthy (_target_path self) = false ∨
  truthy (_media_name self) = false ∨
  fs_exists src (world st) = false ∨ fs_is_dir src (world st) = false →
  ∃ st', _do_transfer self st = (Ok (), st') ∧
    world st' = world st ∧ posts st' = posts st ∧
    (∃ l, log st' = log st ++ [l] ∧ (l = ErrorEmptyConfig ∨ l = ErrorNoSource src)) ∧
    (∃ cs, calls st' = calls st ++ cs ∧
           Forall (λ c, c = CExists src ∨ c = CIsDir src) cs).
Proof.
  intros src Hbad. unfold _do_transfer.
  destruct (truthy (_source_path self)) eqn:Hs; simpl;
    [destruct (truthy (_target_path self)) eqn:Ht; simpl;
       [destruct (truthy (_media_name self)) eqn:Hm; simpl|]|].
  2-4: eexists; split; [reflexivity|]; simpl; split_and!; try done;
       [by eauto|exists []; by rewrite app_nil_r].
  fold src. unfold_run. simpl.
  destruct (fs_exists src (world st)) eqn:Hex; simpl;
    [destruct (fs_is_dir src (world st)) eqn:Hdir; simpl|].
  - destruct Hbad as [?|[?|[?|[?|?]]]]; congruence.
  - eexists; split; [reflexivity|]. norm_state. split_and!; try done; [by eauto|].
    eexists; split; [reflexivity|]. repeat apply List.Forall_cons; auto.
  - eexists; split; [reflexivity|]. norm_state. split_and!; try done; [by eauto|].
    eexists; split; [reflexivity|]. repeat apply List.Forall_cons; auto.
Qed.

Lemma validation_failure_aborts_witness :
  let self := {| _source_path := Some []; _target_path := Some (py "/lib");
                 _media_name := Some (py "Show"); _season := PyStr (py "1");
                 _transfer_type := py "copy" |} in
  let st := Disk.start (Disk.with_files ["ep01.mkv"]) in
  ∃ st', _do_transfer self st = (Ok (), st') ∧
    world st' = world st ∧ posts st' = posts st ∧
    (∃ l, log st' = log st ++ [l] ∧
          (l = ErrorEmptyConfig ∨ l = ErrorNoSource (Path []))) ∧
    (∃ cs, calls st' = calls st ++ cs ∧
           Forall (λ c, c = CExists (Path []) ∨ c = CIsDir (Path [])) cs).
Proof.
  intros self st. apply (validation_failure_aborts self st). by left.
Defined.

(** ** Where the files go *)

Lemma format_02d_small n : 0 ≤ n < 10 → format_02d n = py "0" ++ str_of_int n.
Proof. unfold format_02d. intros. by rewrite (proj2 (Z.leb_le 0 n)), (proj2 (Z.ltb_lt n 10)) by lia. Qed.

Lemma format_02d_large n : n < 0 ∨ 10 ≤ n → format_02d n = str_of_int n.
Proof.
  unfold format_02d. intros [?|?].
  - by rewrite (proj2 (Z.leb_gt 0 n)) by lia.
  - rewrite (proj2 (Z.ltb_ge n 10)) by lia. by rewrite andb_false_r.
Qed.

Example format_02d_examples :
  format_02d 1 = py "01" ∧ format_02d 12 = py "12" ∧ format_02d 123 = py "123" ∧
  format_02d (-1) = py "-1" ∧ str_of_int 1 = py "1".
Proof. by vm_compute. Qed.

Example season_examples :
  py_int (PyStr (py "2")) = Some 2 ∧ py_int (PyStr (py " 03 ")) = Some 3 ∧
  py_int (PyInt 4) = Some 4 ∧ py_int (PyStr (py "two")) = None ∧
  py_int (PyStr []) = None ∧ py_int PyNone = None.
Proof. by vm_compute. Qed.



(** ** Runs that end *)

Section run_ends.
Context {W : Type} `{!FileSystem W}.

Lemma do_transfer_Ok (self : plugin) (st st' : state W) :
  validated self (world st) → _do_transfer self st = (Ok (), st') →
  let src := Path (field_str (_source_path self)) in
  let n := default 1 (py_int (_season self)) in
  let media := field_str (_media_name self) in
  let tt := _transfer_type self in
  let dir := Path (field_str (_target_path self)) // media
               // (py "Season " ++ str_of_int n) in
  ∃ w1 names sc st2,
    fs_mkdir dir (world st) = (w1, None) ∧ fs_iterdir src w1 = inr names ∧
    transfer_jobs media tt n dir
      (sequencer 1 (sort_by_name (List.filter (eligible w1) ((λ n, src // n) <$> names))))
      0 (loop_start self dir w1 names st) = (Ok sc, st2) ∧
    st' = add_post {| title := py "强制整理成功"; text := summary media sc tt |} st2.
Proof.
  intros Hvalid. rewrite (do_transfer_validated self st Hvalid). simpl.
  destruct (fs_mkdir _ _) as [w1 [e|]] eqn:Hmk; [done|].
  destruct (fs_iterdir _ _) as [e|names] eqn:Hit; [done|].
  destruct (transfer_jobs _ _ _ _ _ _ _) as [[sc|e] st2] eqn:Hloop; [|done].
  intros [= <-]. by exists w1, names, sc, st2.
Qed.

Lemma omap_probe_is_file (l : list path) : omap probe (CIsFile <$> l) = [].
Proof. by induction l. Qed.
End run_ends.

Lemma sequencer_lookup fb files k f :
  files !! k = Some f →
  sequencer fb files !! k =
  Some (f, match _get_episode (stem f) with
           | Some ep => ep
           | None => fb + Z.of_nat (length (List.filter unknown_episode (take k files)))
           end).
Proof.
  revert fb k. induction files as [|g files IH]; intros fb k; [done|].
  destruct k as [|k]; simpl.
  - intros [= ->]. destruct (_get_episode (stem f)); simpl; f_equal; f_equal; lia.
  - intros Hf. unfold unknown_episode at 1.
    destruct (_get_episode (stem g)) as [ep|]; simpl; rewrite (IH _ _ Hf); [done|].
    destruct (_get_episode (stem f)); [done|]. do 2 f_equal. lia.
Qed.

(** C2. The files are dealt with in ascending order of their names, and a
    file whose stem gives no episode takes the value of a counter that
    starts at 1 and moves on only for such files. *)
Theorem sequencer_order :
  (∀ (W : Type) (FS : FileSystem W) (self : plugin) (st st' : state W),
     validated self (world st) → _do_transfer self st = (Ok (), st') →
     let src := Path (field_str (_source_path self)) in
     let n := default 1 (py_int (_season self)) in
     let media := field_str (_media_name self) in
     let dir := Path (field_str (_target_path self)) // media
                  // (py "Season " ++ str_of_int n) in
     ∃ w1 names files,
       fs_mkdir dir (world st) = (w1, None) ∧ fs_iterdir src w1 = inr names ∧
       files ≡ₚ List.filter (eligible w1) ((λ n, src // n) <$> names) ∧
       StronglySorted name_le files ∧
       (∃ ls, log st' = log st ++ ls ∧ omap log_file ls = name <$> files) ∧
       (∃ cs, calls st' = calls st ++ cs ∧
              omap probe cs
              = src :: ((λ j, destination media n dir j.1 j.2) <$> sequencer 1 files))) ∧
  (∀ fb files k f,
     files !! k = Some f →
     sequencer fb files !! k =
     Some (f, match _get_episode (stem f) with
              | Some ep => ep
              | None => fb + Z.of_nat (length (List.filter unknown_episode (take k files)))
              end)) ∧
  (let r := _do_transfer (Disk.show (PyStr (py "1")) "copy")
              (Disk.start (Disk.with_files ["C.mp4"; "A.mp4"; "B.mp4"])) in
   r.1 = Ok () ∧
   log r.2 = [InfoTransferred (py "A.mp4") (py "Show - S01E01.mp4");
              InfoTransferred (py "B.mp4") (py "Show - S01E02.mp4");
              InfoTransferred (py "C.mp4") (py "Show - S01E03.mp4")]).
Proof.
  split_and!; [|apply sequencer_lookup|by vm_compute].
  intros W FS self st st' Hvalid Hrun src n media dir.
  destruct (do_transfer_Ok self st st' Hvalid Hrun) as (w1 & names & sc & st2 & Hmk & Hit & Hloop & ->).
  fold src n media dir in Hmk, Hit, Hloop.
  set (files := sort_by_name _) in Hloop.
  exists w1, names, files. split_and!; try done.
  - apply sort_by_name_perm.
  - apply sort_by_name_sorted.
  - apply transfer_jobs_Ok in Hloop as (cs & ls & Hc & Hp & Hl & Hf & _).
    exists ls. split; [done|]. rewrite Hf. clear.
    generalize 1. induction files as [|f files IH]; intros fb; [done|].
    simpl. destruct (_get_episode (stem f)); simpl; by rewrite IH.
  - apply transfer_jobs_Ok in Hloop as (cs & ls & Hc & Hp & Hl & Hf & _).
    eexists. split; [simpl; rewrite Hc; unfold loop_start; simpl; by rewrite <-app_assoc|].
    simpl. by rewrite omap_app, omap_probe_is_file, Hp.
Qed.

Lemma sequencer_order_witness :
  let self := Disk.show (PyStr (py "1")) "copy" in
  let st := Disk.start (Disk.with_files ["C.mp4"; "ep07.mkv"; "B.mp4"]) in
  let src := Path (field_str (_source_path self)) in
  let n := default 1 (py_int (_season self)) in
  let media := field_str (_media_name self) in
  let dir := Path (field_str (_target_path self)) // media
               // (py "Season " ++ str_of_int n) in
  validated self (world st) ∧
  (∃ st', _do_transfer self st = (Ok (), st') ∧
    ∃ w1 names files,
      fs_mkdir dir (world st) = (w1, None) ∧ fs_iterdir src w1 = inr names ∧
      files ≡ₚ List.filter (eligible w1) ((λ n, src // n) <$> names) ∧
      StronglySorted name_le files ∧
      (∃ ls, log st' = log st ++ ls ∧ omap log_file ls = name <$> files) ∧
      (∃ cs, calls st' = calls st ++ cs ∧
             omap probe cs
             = src :: ((λ j, destination media n dir j.1 j.2) <$> sequencer 1 files))) ∧
  sequencer 1 [src // py "B.mp4"; src // py "C.mp4"] !! 1%nat
  = Some (src // py "C.mp4",
          1 + Z.of_nat (length (List.filter unknown_episode [src // py "B.mp4"]))).
Proof.
  intros self st src n media dir.
  assert (validated self (world st)) as Hvalid by (by vm_compute).
  split_and!; [done| |].
  - exists (_do_transfer self st).2.
    assert (_do_transfer self st = (Ok (), (_do_transfer self st).2)) as Hrun
      by (apply pair_of_fst; vm_compute; reflexivity).
    split; [done|].
    exact (proj1 sequencer_order _ _ self st _ Hvalid Hrun).
  - exact (proj1 (proj2 sequencer_order) 1 [src // py "B.mp4"; src // py "C.mp4"] 1%nat
             (src // py "C.mp4") eq_refl).
Defined.

(** ** The summary *)




(** ** A transfer type that names no transfer *)

Lemma op_of_None tt :
  tt ∉ [py "move"; py "copy"; py "link"; py "softlink"] → op_of tt = None.
Proof.
  intros Hnot. unfold op_of.
  repeat case_bool_decide; try done; destruct Hnot; subst tt;
    repeat first [apply list_elem_of_here | apply list_elem_of_further].
Qed.

Lemma sequencer_length fb files : length (sequencer fb files) = length files.
Proof.
  revert fb. induction files as [|f files IH]; intros fb; [done|].
  simpl. destruct (_get_episode (stem f)); simpl; by rewrite IH.
Qed.

(** C9. With a transfer type other than [move], [copy], [link] and
    [softlink], a run that passes validation makes no transfer; when it
    ends, the count it reports is the number of eligible files, and none
    of the destinations it computed is present any more. *)
Theorem unknown_transfer_type {W} `{!FileSystem W} `{!FileSystemLaws W}
    (self : plugin) (st : state W) :
  _transfer_type self ∉ [py "move"; py "copy"; py "link"; py "softlink"] →
  validated self (world st) →
  (∃ cs, calls (_do_transfer self st).2 = calls st ++ cs ∧
         Forall (λ c, is_transfer c = false) cs) ∧
  ∀ st', _do_transfer self st = (Ok (), st') →
    let src := Path (field_str (_source_path self)) in
    let n := default 1 (py_int (_season self)) in
    let media := field_str (_media_name self) in
    let dir := Path (field_str (_target_path self)) // media
                 // (py "Season " ++ str_of_int n) in
    ∃ w1 names,
      fs_mkdir dir (world st) = (w1, None) ∧ fs_iterdir src w1 = inr names ∧
      let files := List.filter (eligible w1) ((λ n, src // n) <$> names) in
      posts st' = posts st ++
        [{| title := py "强制整理成功";
            text := summary media (Z.of_nat (length files)) (_transfer_type self) |}] ∧
      ∀ j, j ∈ sequencer 1 (sort_by_name files) →
           fs_exists (destination media n dir j.1 j.2) (world st') = false.
Proof.
  intros Hnone%op_of_None Hvalid. split.
  - rewrite (do_transfer_validated self st Hvalid). simpl.
    destruct (fs_mkdir _ _) as [w1 [e|]]; simpl.
    { eexists. split; [done|]. by repeat constructor. }
    destruct (fs_iterdir _ _) as [e|names]; simpl.
    { eexists. split; [done|]. by repeat constructor. }
    match goal with |- context [transfer_jobs ?m ?t ?n ?d ?j ?c ?s] =>
      destruct (transfer_jobs_calls m t n d j c s) as (cs & Hcs & Hall);
      destruct (transfer_jobs m t n d j c s) as [[sc|e] st2] end;
      simpl in *; rewrite Hcs; unfold loop_start; simpl; rewrite <-app_assoc;
      (eexists; split; [done|]);
      repeat (apply List.Forall_cons; [done|]);
      (apply Forall_app; split; [by apply Forall_fmap, Forall_true|]);
      (eapply Forall_impl; [done|]);
      intros c (f & ep & _ & [->|[->|(op & Hop & _)]]); try done; congruence.
  - intros st' Hrun src n media dir.
    destruct (do_transfer_Ok self st st' Hvalid Hrun)
      as (w1 & names & sc & st2 & Hmk & Hit & Hloop & ->).
    exists w1, names. split; [exact Hmk|]. split; [exact Hit|]. split.
    + pose proof (f_equal (λ r, posts r.2) Hloop) as Hp. simpl in Hp.
      rewrite transfer_jobs_posts in Hp.
      apply transfer_jobs_Ok in Hloop as (cs & ls & _ & _ & _ & _ & -> & Hlen).
      unfold add_post. simpl. rewrite <-Hp, (Hlen Hnone), sequencer_length.
      by rewrite Z.add_0_l, (Permutation_length (sort_by_name_perm _)).
    + intros j Hj. simpl.
      by destruct (transfer_jobs_no_op _ _ _ _ _ _ _ _ _ Hnone Hloop) as [Hgone _];
        apply Hgone.
Qed.

(** The disk behaves as a file system is expected to. *)
#[global] Instance disk_laws : FileSystemLaws (gmap (list (list Z)) Disk.node).
Proof.
  split.
  - intros p d d'. simpl. unfold Disk.disk_unlink, Disk.disk_exists.
    destruct (d !! p) as [[]|] eqn:Hp; intros [= <-];
      by rewrite lookup_delete_eq.
  - intros p q d Hne. simpl. unfold Disk.disk_unlink, Disk.disk_exists.
    destruct (d !! p) as [[]|] eqn:Hp; simpl; by rewrite ?lookup_delete_ne.
  - intros op src dst q d Hsrc Hdst. simpl.
    unfold Disk.disk_transfer, Disk.disk_exists.
    destruct (negb _); [done|].
    destruct op, (d !! src) as [k|] eqn:Hs; simpl; try done;
      try (destruct (d !! dst); simpl; try done);
      by rewrite ?lookup_insert_ne, ?lookup_delete_ne.
Qed.

Lemma unknown_transfer_type_witness :
  let self := Disk.show (PyStr (py "1")) "hardlink" in
  let old := Disk.lib_dir // py "Show" // py "Season 1" // py "Show - S01E02.mkv" in
  let st := Disk.start (<[old := Disk.File (py "old")]>
                          (Disk.with_files ["ep01.mkv"; "ep02.mkv"])) in
  ((_transfer_type self ∉ [py "move"; py "copy"; py "link"; py "softlink"]) ∧
   validated self (world st)) ∧
  (∃ cs, calls (_do_transfer self st).2 = calls st ++ cs ∧
         Forall (λ c, is_transfer c = false) cs) ∧
  ∀ st', _do_transfer self st = (Ok (), st') →
    let src := Path (field_str (_source_path self)) in
    let n := default 1 (py_int (_season self)) in
    let media := field_str (_media_name self) in
    let dir := Path (field_str (_target_path self)) // media
                 // (py "Season " ++ str_of_int n) in
    ∃ w1 names,
      fs_mkdir dir (world st) = (w1, None) ∧ fs_iterdir src w1 = inr names ∧
      let files := List.filter (eligible w1) ((λ n, src // n) <$> names) in
      posts st' = posts st ++
        [{| title := py "强制整理成功";
            text := summary media (Z.of_nat (length files)) (_transfer_type self) |}] ∧
      ∀ j, j ∈ sequencer 1 (sort_by_name files) →
           fs_exists (destination media n dir j.1 j.2) (world st') = false.
Proof.
  intros self old st.
  assert (_transfer_type self ∉ [py "move"; py "copy"; py "link"; py "softlink"]) as Htt.
  { apply (bool_decide_unpack _). by vm_compute. }
  assert (validated self (world st)) as Hvalid by (by vm_compute).
  split; [done|]. exact (unknown_transfer_type self st Htt Hvalid).
Defined.

Example unknown_transfer_type_run :
  let self := Disk.show (PyStr (py "1")) "hardlink" in
  let old := Disk.lib_dir // py "Show" // py "Season 1" // py "Show - S01E02.mkv" in
  let st := Disk.start (<[old := Disk.File (py "old")]>
                          (Disk.with_files ["ep01.mkv"; "ep02.mkv"])) in
  let r := _do_transfer self st in
  r.1 = Ok () ∧ CUnlink old ∈ calls r.2 ∧ world r.2 !! old = None ∧
  text <$> last (posts r.2)
  = Some (py "剧集: Show" ++ [10] ++ py "共处理: 2 个文件" ++ [10] ++ py "方式: hardlink").
Proof.
  intros self old st r. split_and!; [by vm_compute| |by vm_compute..].
  apply (bool_decide_unpack _). by vm_compute.
Qed.

(** ** A destination that is already there *)

(** C6. When the destination of a file exists, it is removed first. If
    the removal raises, no transfer is made. Otherwise the transfer is
    made on a file system in which the destination is absent. Either way
    no entry other than the source and the destination appears or
    disappears. *)
Theorem overwrite_destination {W} `{!FileSystem W} `{!FileSystemLaws W}
    (media tt : pystr) (n : Z) (dir f : path) (ep sc : Z) (st : state W) :
  let dst := destination media n dir f ep in
  fs_exists dst (world st) = true →
  let r := transfer_file media tt n dir f ep sc st in
  let w1 := (fs_unlink dst (world st)).1 in
  match (fs_unlink dst (world st)).2 with
  | Some e =>
    r.1 = Raise e ∧ world r.2 = w1 ∧
    calls r.2 = calls st ++ [CExists dst; CUnlink dst]
  | None =>
    fs_exists dst w1 = false ∧ (∃ sc', r.1 = Ok sc') ∧
    match op_of tt with
    | Some op =>
      world r.2 = (fs_transfer op f dst w1).1 ∧
      calls r.2 = calls st ++ [CExists dst; CUnlink dst; CTransfer op f dst]
    | None =>
      world r.2 = w1 ∧ calls r.2 = calls st ++ [CExists dst; CUnlink dst]
    end
  end ∧
  ∀ q, q ≠ dst → q ≠ f → fs_exists q (world r.2) = fs_exists q (world st).
Proof.
  intros dst Hex r w1. unfold destination in dst.
  assert (∀ q, q ≠ dst → fs_exists q w1 = fs_exists q (world st)) as Hframe.
  { intros q Hq. by apply unlink_frame. }
  subst r. unfold transfer_file, new_filename. fold dst.
  unfold path_exists, query, mbind, M_bind. simpl. rewrite Hex. simpl.
  unfold path_unlink, command. simpl. fold w1.
  destruct (fs_unlink dst (world st)) as [w [e|]] eqn:Hun; simpl in *; subst w1.
  { split; [by rewrite <-app_assoc|]. intros q Hq _. by apply Hframe. }
  pose proof (unlink_removes _ _ _ Hun) as Hgone.
  unfold op_of, try_except, transfer_by_type, transfer, command, logger, mbind, M_bind,
    mret, M_ret.
  repeat case_bool_decide; simpl;
    try (match goal with |- context [fs_transfer ?o ?a ?b ?x] =>
           pose proof (λ q, transfer_frame o a b q x) as Htr;
           destruct (fs_transfer o a b x) as [w2 [e|]] eqn:Htrans; simpl in *
         end);
    norm_state;
    (split; [split_and!; by eauto|]);
    intros q Hq Hf; rewrite ?Htr by done; by apply Hframe.
Qed.

Lemma overwrite_destination_witness :
  let dir := Disk.lib_dir // py "Show" // py "Season 1" in
  let f := Disk.src_dir // py "ep01.mkv" in
  let dst := destination (py "Show") 1 dir f 1 in
  let st := Disk.start (<[dst := Disk.File (py "old")]>
              (<[dir := Disk.Dir]> (Disk.with_files ["ep01.mkv"]))) in
  let r := transfer_file (py "Show") (py "move") 1 dir f 1 0 st in
  let w1 := (fs_unlink dst (world st)).1 in
  fs_exists dst (world st) = true ∧
  match (fs_unlink dst (world st)).2 with
  | Some e =>
    r.1 = Raise e ∧ world r.2 = w1 ∧
    calls r.2 = calls st ++ [CExists dst; CUnlink dst]
  | None =>
    fs_exists dst w1 = false ∧ (∃ sc', r.1 = Ok sc') ∧
    match op_of (py "move") with
    | Some op =>
      world r.2 = (fs_transfer op f dst w1).1 ∧
      calls r.2 = calls st ++ [CExists dst; CUnlink dst; CTransfer op f dst]
    | None =>
      world r.2 = w1 ∧ calls r.2 = calls st ++ [CExists dst; CUnlink dst]
    end
  end ∧
  ∀ q, q ≠ dst → q ≠ f → fs_exists q (world r.2) = fs_exists q (world st).
Proof.
  intros dir f dst st r w1.
  assert (fs_exists dst (world st) = true) as Hex by (by vm_compute).
  split; [done|].
  exact (overwrite_destination (py "Show") (py "move") 1 dir f 1 0 st Hex).
Defined.

Example overwrite_destination_run :
  let dir := Disk.lib_dir // py "Show" // py "Season 1" in
  let f := Disk.src_dir // py "ep01.mkv" in
  let dst := destination (py "Show") 1 dir f 1 in
  let st := Disk.start (<[dst := Disk.File (py "old")]>
              (<[dir := Disk.Dir]> (Disk.with_files ["ep01.mkv"]))) in
  let r := transfer_file (py "Show") (py "copy") 1 dir f 1 0 st in
  r.1 = Ok 1 ∧ world r.2 !! dst = Some (Disk.File (py "ep01.mkv")) ∧
  fs_iterdir dir (world r.2) = inr [py "Show - S01E01.mkv"].
Proof. by vm_compute. Qed.

(** ** Two files, one episode *)

(** C8. A file whose stem gives episode 1 and a file whose stem gives
    none, coming first in the order, are both given episode 1 in the same
    run, and go to the same destination. *)
Theorem duplicate_episode :
  let a := Disk.src_dir // py "a.mkv" in
  let e1 := Disk.src_dir // py "e1.mkv" in
  let jobs := sequencer 1 (sort_by_name [e1; a]) in
  (a ≠ e1 ∧ (a, 1) ∈ jobs ∧ (e1, 1) ∈ jobs ∧
   _get_episode (stem a) = None ∧ _get_episode (stem e1) = Some 1) ∧
  let r := _do_transfer (Disk.show (PyStr (py "1")) "copy")
             (Disk.start (Disk.with_files ["e1.mkv"; "a.mkv"])) in
  r.1 = Ok () ∧
  log r.2 = [InfoTransferred (py "a.mkv") (py "Show - S01E01.mkv");
             InfoTransferred (py "e1.mkv") (py "Show - S01E01.mkv")].
Proof.
  intros a e1 jobs. split; [|by vm_compute].
  split_and!; try (by vm_compute); apply (bool_decide_unpack _); by vm_compute.
Qed.

(** ** A removal that fails *)

(** The loop body raises only when the removal of the destination
    does. *)
Lemma transfer_file_raises {W} `{!FileSystem W} media tt n dir f ep sc (st st' : state W) e :
  transfer_file media tt n dir f ep sc st = (Raise e, st') →
  fs_exists (destination media n dir f ep) (world st) = true ∧
  (fs_unlink (destination media n dir f ep) (world st)).2 = Some e.
Proof.
  unfold destination, new_filename.
  match goal with |- _ → ?G => set (Goal := G) end.
  run_cases; intros; simplify_eq/=; subst Goal; unfold new_filename in *; simpl;
    match goal with H : fs_unlink _ _ = _ |- _ => by rewrite H end.
Qed.

(** C3 fails on the code: the removal of an existing destination is
    outside the [try]. Here the destination of the first file is a
    directory; the exception leaves [_do_transfer], the second file is
    never looked at, and nothing is logged or posted. *)
Theorem unlink_failure_aborts_run :
  let self := Disk.show (PyStr (py "1")) "copy" in
  let dir := Disk.lib_dir // py "Show" // py "Season 1" in
  let blocked := dir // py "Show - S01E01.mkv" in
  let st := Disk.start (<[blocked := Disk.Dir]>
              (<[dir := Disk.Dir]> (<[Disk.lib_dir // py "Show" := Disk.Dir]>
                 (Disk.with_files ["ep01.mkv"; "ep02.mkv"])))) in
  let r := _do_transfer self st in
  validated self (world st) ∧
  r.1 = Raise (Exn (py "IsADirectoryError")) ∧
  last (calls r.2) = Some (CUnlink blocked) ∧
  (CExists (dir // py "Show - S01E02.mkv") ∉ calls r.2) ∧
  log r.2 = [] ∧ posts r.2 = [].
Proof.
  intros self dir blocked st r. split_and!; try (by vm_compute).
  apply (bool_decide_unpack _). by vm_compute.
Qed.

(** ** The extension of the destination *)

Lemma name_joinpath (dir : path) (x : pystr) : name (dir // x) = x.
Proof. unfold name, joinpath. by rewrite last_snoc. Qed.

Lemma rfind_dot_None s : 46 ∉ s → rfind_dot s = None.
Proof.
  induction s as [|c s IH]; [done|]. intros Hnot. simpl.
  rewrite IH by (intros ?; apply Hnot; by right).
  destruct (Z.eqb_spec c 46) as [->|]; [|done]. destruct Hnot. by left.
Qed.

Lemma rfind_dot_app base rest :
  46 ∉ rest → rfind_dot (base ++ 46 :: rest) = Some (length base).
Proof.
  intros Hnot. induction base as [|c base IH]; simpl.
  - by rewrite rfind_dot_None.
  - by rewrite IH.
Qed.

Lemma exts_shape ext :
  ext ∈ _exts →
  str_lower ext = ext ∧ ∃ rest, ext = 46 :: rest ∧ rest ≠ [] ∧ 46 ∉ rest.
Proof.
  unfold _exts. intros Hext.
  repeat (apply elem_of_cons in Hext as [->|Hext]);
    [..|by apply elem_of_nil in Hext];
    (split; [by vm_compute|]); eexists; (split_and!; [reflexivity|done|]);
    apply (bool_decide_unpack _); by vm_compute.
Qed.

(** The suffix of a name that ends with one of the extensions. *)
Lemma suffix_ext (dir : path) (base ext : pystr) :
  base ≠ [] → ext ∈ _exts → suffix (dir // (base ++ ext)) = ext.
Proof.
  intros Hbase (_ & rest & -> & Hrest & Hdot)%exts_shape.
  unfold suffix, has_suffix. rewrite name_joinpath, rfind_dot_app by done.
  rewrite bool_decide_true.
  - by rewrite drop_app_length.
  - rewrite length_app. simpl. destruct base, rest; simpl in *; try done; lia.
Qed.

Lemma destination_suffix media n dir f ep :
  str_lower (suffix f) ∈ _exts →
  suffix (destination media n dir f ep) = str_lower (suffix f).
Proof.
  intros Hext. unfold destination.
  assert (py " - S" = 32 :: py "- S") as Hlit by (by vm_compute).
  rewrite !(app_assoc _ _ (str_lower _)). apply suffix_ext; [|done].
  rewrite Hlit. by destruct media.
Qed.

Lemma sequencer_files fb files f ep : (f, ep) ∈ sequencer fb files → f ∈ files.
Proof.
  revert fb. induction files as [|g files IH]; intros fb; simpl.
  { by intros ?%elem_of_nil. }
  destruct (_get_episode (stem g)); intros [[= -> _]|Hin]%elem_of_cons;
    first [by left | right; by eapply IH].
Qed.

(** C10. The extension of the destination of an eligible file is the
    extension of the source in lowercase, one of the extensions of the
    list; this holds for every transfer a run makes. A file [Ep.MKV] is
    eligible and goes to a name that ends with [.mkv]. *)
Theorem extension_lowercased :
  (∀ (W : Type) (FS : FileSystem W) (w : W) (f : path),
     eligible w f = true →
     str_lower (suffix f) ∈ _exts ∧
     ∀ media n dir ep,
       suffix (destination media n dir f ep) = str_lower (suffix f) ∧
       str_lower (suffix (destination media n dir f ep))
       = suffix (destination media n dir f ep)) ∧
  (∀ (W : Type) (FS : FileSystem W) (self : plugin) (st : state W),
     validated self (world st) →
     ∀ op f p, CTransfer op f p ∈ calls (_do_transfer self st).2 →
               CTransfer op f p ∉ calls st →
               suffix p = str_lower (suffix f) ∧ suffix p ∈ _exts) ∧
  (let self := Disk.show (PyStr (py "1")) "copy" in
   let st := Disk.start (Disk.with_files ["Ep.MKV"]) in
   eligible (world st) (Disk.src_dir // py "Ep.MKV") = true ∧
   log (_do_transfer self st).2
   = [InfoTransferred (py "Ep.MKV") (py "Show - S01E01.mkv")]).
Proof.
  split; [|split]; [| |by vm_compute].
  - intros W FS w f [_ Hext%bool_decide_eq_true]%andb_true_iff.
    split; [done|]. intros media n dir ep.
    rewrite destination_suffix by done. split; [done|].
    by apply exts_shape.
  - intros W FS self st Hvalid op f p Hin Hnew.
    rewrite (do_transfer_validated self st Hvalid) in Hin. simpl in Hin.
    destruct (fs_mkdir _ _) as [w1 [e|]]; simpl in Hin.
    { apply elem_of_app in Hin as [?|Hin]; [done|].
      repeat (apply elem_of_cons in Hin as [?|Hin]; [done|]). by apply elem_of_nil in Hin. }
    destruct (fs_iterdir _ _) as [e|names]; simpl in Hin.
    { apply elem_of_app in Hin as [?|Hin]; [done|].
      repeat (apply elem_of_cons in Hin as [?|Hin]; [done|]). by apply elem_of_nil in Hin. }
    match type of Hin with context [transfer_jobs ?m ?t ?n ?d ?j ?c ?s] =>
      destruct (transfer_jobs_calls m t n d j c s) as (cs & Hcs & Hall);
      assert (CTransfer op f p ∈ calls (transfer_jobs m t n d j c s).2) as Hin'
        by (by destruct (transfer_jobs m t n d j c s) as [[sc|e] st2])
    end.
    rewrite Hcs in Hin'. unfold loop_start in Hin'. simpl in Hin'.
    apply elem_of_app in Hin' as [Hin'|Hin'].
    { apply elem_of_app in Hin' as [?|Hin']; [done|].
      repeat (apply elem_of_cons in Hin' as [?|Hin']; [done|]).
      by apply list_elem_of_fmap in Hin' as (? & ? & _). }
    rewrite Forall_forall in Hall.
    destruct (Hall _ Hin') as (g & ep & Hjob & [?|[?|(op' & _ & [= -> -> ->])]]);
      [done..|].
    apply sequencer_files in Hjob.
    rewrite (sort_by_name_perm _) in Hjob.
    apply list_elem_of_In, List.filter_In in Hjob as [_ Hel].
    apply andb_true_iff in Hel as [_ Hext%bool_decide_eq_true].
    rewrite destination_suffix by done. done.
Qed.

Lemma extension_lowercased_witness :
  let self := Disk.show (PyStr (py "1")) "copy" in
  let st := Disk.start (Disk.with_files ["Ep.MKV"]) in
  let f := Disk.src_dir // py "Ep.MKV" in
  (eligible (world st) f = true ∧ validated self (world st)) ∧
  (str_lower (suffix f) ∈ _exts ∧
   ∀ media n dir ep,
     suffix (destination media n dir f ep) = str_lower (suffix f) ∧
     str_lower (suffix (destination media n dir f ep))
     = suffix (destination media n dir f ep)) ∧
  (∀ op f p, CTransfer op f p ∈ calls (_do_transfer self st).2 →
             CTransfer op f p ∉ calls st →
             suffix p = str_lower (suffix f) ∧ suffix p ∈ _exts).
Proof.
  intros self st f.
  assert (eligible (world st) f = true) as Hel by (by vm_compute).
  assert (validated self (world st)) as Hvalid by (by vm_compute).
  split; [by split|]. split.
  - exact (proj1 extension_lowercased _ _ (world st) f Hel).
  - exact (proj1 (proj2 extension_lowercased) _ _ self st Hvalid).
Defined.

(** ** The plugin in its host *)

Lemma run_now_reset (c : gmap string pyval) :
  <["run_now" := PyBool false]> c ≠ ∅ ∧
  config_get (<["run_now" := PyBool false]> c) "run_now" PyNone = PyBool false ∧
  ∀ k d, k ≠ "run_now"%string →
         config_get (<["run_now" := PyBool false]> c) k d = config_get c k d.
Proof.
  split_and!.
  - apply insert_non_empty.
  - unfold config_get. by rewrite lookup_insert_eq.
  - intros k d Hk. unfold config_get. by rewrite lookup_insert_ne.
Qed.

(** X1. [init_plugin] leaves everything as it is (no call to the file
    system, no log line, nothing saved, the dictionary untouched) when it
    is given no configuration, an empty one, or one in which [enabled] or
    [run_now] is false or missing. *)
Theorem init_plugin_idle {W} `{!FileSystem W} (config : option (gmap string pyval))
    (self : attributes) (st : state W) :
  (config = None ∨ config = Some ∅ ∨
   ∃ c, config = Some c ∧
        py_truth (config_get c "enabled" PyNone)
        && py_truth (config_get c "run_now" PyNone) = false) →
  ∃ r, init_plugin config self st = Some r ∧
       new_state r = st ∧ host_calls r = [] ∧ new_config r = config ∧
       outcome r = Ok ().
Proof.
  intros [->|[->|(c & -> & Hoff)]]; unfold init_plugin; simpl.
  - by eexists.
  - rewrite bool_decide_true by done. by eexists.
  - case_bool_decide; [by eexists|]. rewrite Hoff. by eexists.
Qed.

Lemma init_plugin_idle_witness :
  let config : option (gmap string pyval) :=
    Some (<["enabled" := PyBool true]> form_defaults) in
  let st := Disk.start (Disk.with_files ["ep01.mkv"]) in
  ∃ r, init_plugin config class_attributes st = Some r ∧
       new_state r = st ∧ host_calls r = [] ∧ new_config r = config ∧
       outcome r = Ok ().
Proof.
  intros config st. apply (init_plugin_idle config class_attributes st).
  right. right. eexists. split; [reflexivity|]. by vm_compute.
Defined.

(** X2. When [init_plugin] has started a run and the run has returned,
    the dictionary handed to [update_config] is the one received with
    [run_now] set to [False] and every other key as it was; given that
    dictionary again, [init_plugin] starts nothing. *)
Theorem init_plugin_resets_trigger {W} `{!FileSystem W} (c : gmap string pyval)
    (self : attributes) (st : state W) (r : init_result W) :
  init_plugin (Some c) self st = Some r → host_calls r ≠ [] → outcome r = Ok () →
  let c' := <["run_now" := PyBool false]> c in
  new_config r = Some c' ∧
  host_calls r = [LogTriggered (config_get c "media_name" PyNone); UpdateConfig c'] ∧
  (∀ k, k ≠ "run_now"%string → c' !! k = c !! k) ∧
  ∀ st2 : state W,
    ∃ r2, init_plugin (Some c') (new_self r) st2 = Some r2 ∧
          new_state r2 = st2 ∧ host_calls r2 = [] ∧
          get_state (new_self r2) = get_state (new_self r).
Proof.
  unfold init_plugin. case_bool_decide as Hempty; [by intros [= <-]|].
  destruct (py_truth _ && py_truth _) eqn:Hon; [|by intros [= <-]].
  destruct (plugin_of _) as [p|]; [|done].
  destruct (_do_transfer p st).1 as [[]|e] eqn:Hrun; intros [= <-]; simpl; [|done].
  intros _ _. destruct (run_now_reset c) as (Hne & Hoff & Hother).
  split_and!; try done.
  - intros k Hk. by rewrite lookup_insert_ne.
  - intros st2. rewrite bool_decide_false by done. rewrite Hoff. simpl.
    rewrite andb_false_r. eexists. split_and!; try done. simpl.
    unfold get_state. simpl. by apply Hother.
Qed.

(** X3. When the run that [init_plugin] has started raises, the exception
    leaves [init_plugin]: [update_config] is not called and [run_now] is
    not reset, so the same dictionary starts the run again. *)
Theorem init_plugin_failure_keeps_trigger {W} `{!FileSystem W} (c : gmap string pyval)
    (self : attributes) (st : state W) (r : init_result W) (e : exn) :
  init_plugin (Some c) self st = Some r → outcome r = Raise e →
  new_config r = Some c ∧
  host_calls r = [LogTriggered (config_get c "media_name" PyNone)] ∧
  ∀ st2 : state W,
    ∃ r2, init_plugin (Some c) (new_self r) st2 = Some r2 ∧
          head (host_calls r2) = Some (LogTriggered (config_get c "media_name" PyNone)).
Proof.
  unfold init_plugin. case_bool_decide as Hempty; [by intros [= <-]|].
  destruct (py_truth _ && py_truth _) eqn:Hon; [|by intros [= <-]].
  destruct (plugin_of _) as [p|]; [|done].
  destruct (_do_transfer p st).1 as [[]|e'] eqn:Hrun; intros [= <-]; simpl; [done|].
  intros _. split_and!; try done.
  intros st2. destruct (_do_transfer p st2).1; by eexists.
Qed.

(** The dictionary of a configuration of the form. *)
Lemma init_plugin_failure_keeps_trigger_witness :
  let c : gmap string pyval :=
    list_to_map
      [("enabled", PyBool true); ("run_now", PyBool true);
       ("source_path", PyStr (py "/src")); ("target_path", PyStr (py "/lib"));
       ("media_name", PyStr (py "Show")); ("season", PyStr (py "1"));
       ("transfer_type", PyStr (py "copy"))]%string in
  let dir := Disk.lib_dir // py "Show" // py "Season 1" in
  let st := Disk.start (<[dir // py "Show - S01E01.mkv" := Disk.Dir]>
              (<[dir := Disk.Dir]> (<[Disk.lib_dir // py "Show" := Disk.Dir]>
                 (Disk.with_files ["ep01.mkv"; "ep02.mkv"])))) in
  ∃ r, init_plugin (Some c) class_attributes st = Some r ∧
       outcome r = Raise (Exn (py "IsADirectoryError")) ∧
       new_config r = Some c ∧
       host_calls r = [LogTriggered (config_get c "media_name" PyNone)] ∧
       ∀ st2 : state (gmap (list (list Z)) Disk.node),
         ∃ r2, init_plugin (Some c) (new_self r) st2 = Some r2 ∧
               head (host_calls r2)
               = Some (LogTriggered (config_get c "media_name" PyNone)).
Proof.
  intros c dir st.
  destruct (init_plugin (Some c) class_attributes st) as [r|] eqn:Hr.
  - assert (outcome <$> init_plugin (Some c) class_attributes st
            = Some (Raise (Exn (py "IsADirectoryError")))) as Hout
      by (by vm_compute).
    rewrite Hr in Hout. injection Hout as Hout.
    exists r. split; [reflexivity|]. split; [exact Hout|].
    exact (init_plugin_failure_keeps_trigger c class_attributes st r _ Hr Hout).
  - exfalso.
    assert (is_Some (init_plugin (Some c) class_attributes st)) as [? Hsome].
    { apply (bool_decide_unpack _). by vm_compute. }
    congruence.
Defined.

Lemma init_plugin_resets_trigger_witness :
  let c : gmap string pyval :=
    list_to_map
      [("enabled", PyBool true); ("run_now", PyBool true);
       ("source_path", PyStr (py "/src")); ("target_path", PyStr (py "/lib"));
       ("media_name", PyStr (py "Show")); ("season", PyStr (py "1"));
       ("transfer_type", PyStr (py "copy"))]%string in
  let st := Disk.start (Disk.with_files ["ep01.mkv"; "ep02.mkv"]) in
  let c' := <["run_now" := PyBool false]> c in
  ∃ r, (init_plugin (Some c) class_attributes st = Some r ∧
        host_calls r ≠ [] ∧ outcome r = Ok ()) ∧
       new_config r = Some c' ∧
       host_calls r = [LogTriggered (config_get c "media_name" PyNone); UpdateConfig c'] ∧
       (∀ k, k ≠ "run_now"%string → c' !! k = c !! k) ∧
       ∀ st2 : state (gmap (list (list Z)) Disk.node),
         ∃ r2, init_plugin (Some c') (new_self r) st2 = Some r2 ∧
               new_state r2 = st2 ∧ host_calls r2 = [] ∧
               get_state (new_self r2) = get_state (new_self r).
Proof.
  intros c st c'.
  destruct (init_plugin (Some c) class_attributes st) as [r|] eqn:Hr.
  - assert (outcome <$> init_plugin (Some c) class_attributes st = Some (Ok ())) as Hout
      by (by vm_compute).
    assert (length ∘ host_calls <$> init_plugin (Some c) class_attributes st = Some 2%nat)
      as Hcalls by (by vm_compute).
    rewrite Hr in Hout, Hcalls. injection Hout as Hout. injection Hcalls as Hcalls.
    assert (host_calls r ≠ []) as Hne by (by destruct (host_calls r)).
    exists r. split; [exact (conj eq_refl (conj Hne Hout))|].
    exact (init_plugin_resets_trigger c class_attributes st r Hr Hne Hout).
  - exfalso.
    assert (is_Some (init_plugin (Some c) class_attributes st)) as [? Hsome].
    { apply (bool_decide_unpack _). by vm_compute. }
    congruence.
Defined.

(** X4. With the default configuration of the form [init_plugin] starts
    nothing and the plugin reports itself disabled. With the defaults and
    both switches on, the run is started and stops at the first check: an
    error is logged, the file system is not consulted, nothing is posted,
    and [run_now] is reset. *)
Theorem form_defaults_start_nothing {W} `{!FileSystem W} (self : attributes)
    (st : state W) :
  (∃ r, init_plugin (Some form_defaults) self st = Some r ∧
        new_state r = st ∧ host_calls r = [] ∧
        get_state (new_self r) = PyBool false) ∧
  let switched := <["enabled" := PyBool true]> (<["run_now" := PyBool true]> form_defaults) in
  ∃ r, init_plugin (Some switched) self st = Some r ∧
       outcome r = Ok () ∧
       world (new_state r) = world st ∧ calls (new_state r) = calls st ∧
       log (new_state r) = log st ++ [ErrorEmptyConfig] ∧
       posts (new_state r) = posts st ∧
       new_config r = Some (<["run_now" := PyBool false]> switched).
Proof.
  split.
  - exists {| new_self :=
               {| attr_enabled := PyBool false; attr_run_now := PyBool false;
                  attr_source_path := PyStr []; attr_target_path := PyStr [];
                  attr_media_name := PyStr []; attr_season := PyStr (py "1");
                  attr_transfer_type := PyStr (py "softlink") |};
             new_config := Some form_defaults; host_calls := [];
             outcome := Ok (); new_state := st |}.
    split; [vm_compute; reflexivity|done].
  - intros switched.
    exists {| new_self :=
               {| attr_enabled := PyBool true; attr_run_now := PyBool true;
                  attr_source_path := PyStr []; attr_target_path := PyStr [];
                  attr_media_name := PyStr []; attr_season := PyStr (py "1");
                  attr_transfer_type := PyStr (py "softlink") |};
             new_config := Some (<["run_now" := PyBool false]> switched);
             host_calls := [LogTriggered (PyStr []);
                            UpdateConfig (<["run_now" := PyBool false]> switched)];
             outcome := Ok (); new_state := add_log ErrorEmptyConfig st |}.
    split; [vm_compute; reflexivity|done].
Qed.


(** ** The range of the episode *)

Lemma decimal_value_range c d : decimal_value c = Some d → 0 ≤ d < 10.
Proof.
  unfold decimal_value. destruct (List.find _ _) as [z|] eqn:Hfind; [|done].
  intros [= <-]. apply List.find_some in Hfind as [_ Hz].
  apply andb_true_iff in Hz as [?%Z.leb_le ?%Z.ltb_lt]. lia.
Qed.

Lemma int_digits_nonneg ds : 0 ≤ int_digits ds.
Proof.
  unfold int_digits.
  assert (∀ acc, 0 ≤ acc →
    0 ≤ fold_left (λ acc c, 10 * acc + default 0 (decimal_value c)) ds acc) as H.
  { induction ds as [|c ds IH]; intros acc Hacc; simpl; [done|].
    apply IH. destruct (decimal_value c) as [d|] eqn:Hd; simpl; [|lia].
    apply decimal_value_range in Hd. lia. }
  by apply H.
Qed.

Lemma last_filter_Some {A} (p : A → bool) (l : list A) (x : A) :
  last (List.filter p l) = Some x → p x = true ∧ x ∈ l.
Proof.
  intros Hlast%last_Some_elem_of. apply list_elem_of_In, List.filter_In in Hlast as [Hin Hp].
  split; [done|]. by apply list_elem_of_In.
Qed.

Lemma get_episode_nonneg (s : pystr) (n : Z) : _get_episode s = Some n → 0 ≤ n.
Proof.
  unfold _get_episode. destruct (re_search_marker s) as [g|].
  - intros [= <-]. apply int_digits_nonneg.
  - intros [_ Hin]%last_filter_Some.
    apply list_elem_of_fmap in Hin as (ds & -> & _). apply int_digits_nonneg.
Qed.

(** X6. An episode [_get_episode] returns is never negative. Without a
    match of the marker pattern it is below 1000 and none of 264, 265,
    720 and 480; a number that follows a marker is returned whatever its
    value: the stem [Movie 1080p] gives 1080 and [Title 720p] gives
    720. *)
Theorem get_episode_range :
  (∀ (s : pystr) (n : Z),
     _get_episode s = Some n →
     0 ≤ n ∧ ((∀ i ds, ¬ marker_match_at s i ds) → n < 1000 ∧ n ∉ blacklist)) ∧
  _get_episode (py "Movie 1080p") = Some 1080 ∧
  _get_episode (py "Title 720p") = Some 720.
Proof.
  split; [|by vm_compute]. intros s n. unfold _get_episode.
  destruct (re_search_marker s) as [g|] eqn:Hsearch.
  - intros [= <-]. split; [apply int_digits_nonneg|].
    intros Hno%re_search_marker_None. congruence.
  - intros Hlast. split; [by apply (get_episode_nonneg s); unfold _get_episode; rewrite Hsearch|].
    apply last_filter_Some in Hlast as [Hvalid _].
    intros _. by apply valid_num_survives.
Qed.

Lemma get_episode_range_witness :
  _get_episode (py "Show 05") = Some 5 ∧
  0 ≤ 5 ∧ ((∀ i ds, ¬ marker_match_at (py "Show 05") i ds) → 5 < 1000 ∧ 5 ∉ blacklist).
Proof.
  assert (_get_episode (py "Show 05") = Some 5) as Hep by (by vm_compute).
  split; [exact Hep|]. exact (proj1 get_episode_range (py "Show 05") 5 Hep).
Defined.


(** ** The order in which the directory is listed *)

Lemma filter_Permutation {A} (p : A → bool) (l l' : list A) :
  l ≡ₚ l' → List.filter p l ≡ₚ List.filter p l'.
Proof.
  induction 1 as [|x l l' _ IH|x y l|l l' l'' _ IH _ IH']; simpl.
  - done.
  - destruct (p x); by rewrite IH.
  - destruct (p x), (p y); try done. apply Permutation_swap.
  - by rewrite IH.
Qed.

(** X7. The files the loop goes through, and the episodes they are
    given, do not depend on the order in which [iterdir] lists the source
    directory. *)
Theorem listing_order_irrelevant {W} `{!FileSystem W} (w : W) (src : path)
    (names names' : list (list Z)) :
  names ≡ₚ names' →
  let files l := sort_by_name (List.filter (eligible w) ((λ n, src // n) <$> l)) in
  files names = files names' ∧
  sequencer 1 (files names) = sequencer 1 (files names').
Proof.
  intros Hperm files.
  assert (files names = files names') as ->; [|done].
  apply (StronglySorted_unique_strong name_le); try apply sort_by_name_sorted.
  - intros f g Hf Hg Hfg Hgf. unfold files in Hf, Hg.
    rewrite sort_by_name_perm in Hf, Hg.
    apply list_elem_of_In, List.filter_In in Hf as [Hf%list_elem_of_In _].
    apply list_elem_of_In, List.filter_In in Hg as [Hg%list_elem_of_In _].
    apply list_elem_of_fmap in Hf as (a & -> & _).
    apply list_elem_of_fmap in Hg as (b & -> & _).
    unfold name_le in Hfg, Hgf. rewrite !name_joinpath in Hfg, Hgf.
    by rewrite (str_leb_antisym a b).
  - unfold files. rewrite !sort_by_name_perm.
    apply filter_Permutation. by apply fmap_Permutation.
Qed.

Lemma listing_order_irrelevant_witness :
  let w := Disk.with_files ["b.mkv"; "a.mkv"; "notes.txt"] in
  let names := [py "a.mkv"; py "notes.txt"; py "b.mkv"] in
  let names' := [py "b.mkv"; py "a.mkv"; py "notes.txt"] in
  let files l := sort_by_name (List.filter (eligible w) ((λ n, Disk.src_dir // n) <$> l)) in
  names ≡ₚ names' ∧
  files names = files names' ∧
  sequencer 1 (files names) = sequencer 1 (files names').
Proof.
  intros w names names' files.
  assert (names ≡ₚ names') as Hperm.
  { exact (Permutation_app_comm [py "a.mkv"; py "notes.txt"] [py "b.mkv"]). }
  split; [exact Hperm|].
  exact (listing_order_irrelevant w Disk.src_dir names names' Hperm).
Defined.

(** ** Exceptions that leave the run *)

Section run_raises.
Context {W : Type} `{!FileSystem W}.
Implicit Types (st : state W) (f dir : path) (media tt : pystr) (n ep sc : Z).




End run_raises.



(** ** One line for each file *)

Section run_lines.
Context {W : Type} `{!FileSystem W}.
Implicit Types (st : state W) (f dir : path) (media tt : pystr) (n ep sc : Z).

Lemma transfer_file_line media tt n dir f ep sc st sc' st' :
  transfer_file media tt n dir f ep sc st = (Ok sc', st') →
  ∃ l, log st' = log st ++ [l] ∧ line_of media n (f, ep) l ∧
       sc' = sc + (if is_info l then 1 else 0).
Proof.
  unfold line_of. run_cases; intros; simplify_eq/=;
    eexists; split_and!; try reflexivity; eauto; simpl; lia.
Qed.

Lemma transfer_jobs_lines media tt n dir jobs sc st sc' st' :
  transfer_jobs media tt n dir jobs sc st = (Ok sc', st') →
  ∃ ls, log st' = log st ++ ls ∧ Forall2 (line_of media n) jobs ls ∧
        sc' = sc + Z.of_nat (length (List.filter is_info ls)).
Proof.
  revert sc st. induction jobs as [|[f ep] jobs IH]; intros sc st.
  { intros [= <- <-]. exists []. rewrite app_nil_r. split_and!; [done|constructor|simpl; lia]. }
  rewrite transfer_jobs_cons.
  destruct (transfer_file _ _ _ _ _ _ _ _) as [[sc1|e] st1] eqn:Hfile; [|done].
  apply transfer_file_line in Hfile as (l & Hl1 & Hline & Hsc1).
  intros (ls & Hl & Hall & Hsc)%IH. exists (l :: ls).
  rewrite Hl, Hl1, <-app_assoc. split_and!; [done|by constructor|].
  simpl. destruct (is_info l); simpl; lia.
Qed.

End run_lines.

Lemma line_of_count media n jobs ls :
  Forall2 (line_of media n) jobs ls →
  (length (List.filter is_info ls) + length (List.filter is_failure ls))%nat = length jobs.
Proof.
  induction 1 as [|[f ep] l jobs ls [->|[e ->]] _ IH]; simpl; [done|..]; lia.
Qed.

(** X9. A run that ends has logged one line for each eligible file, in
    the order of their names: the success line with the name of the file
    and the name it was given, or the failure line with the name of the
    file. The success lines and the failure lines together are as many as
    the eligible files. *)
Theorem every_file_logged {W} `{!FileSystem W} (self : plugin) (st st' : state W) :
  validated self (world st) → _do_transfer self st = (Ok (), st') →
  let src := Path (field_str (_source_path self)) in
  let n := default 1 (py_int (_season self)) in
  let media := field_str (_media_name self) in
  let dir := Path (field_str (_target_path self)) // media
               // (py "Season " ++ str_of_int n) in
  ∃ w1 names ls,
    fs_mkdir dir (world st) = (w1, None) ∧ fs_iterdir src w1 = inr names ∧
    let files := List.filter (eligible w1) ((λ n, src // n) <$> names) in
    log st' = log st ++ ls ∧
    Forall2 (line_of media n) (sequencer 1 (sort_by_name files)) ls ∧
    (length (List.filter is_info ls) + length (List.filter is_failure ls))%nat
    = length files.
Proof.
  intros Hvalid Hrun src n media dir.
  destruct (do_transfer_Ok self st st' Hvalid Hrun)
    as (w1 & names & sc & st2 & Hmk & Hit & Hloop & ->).
  apply transfer_jobs_lines in Hloop as (ls & Hl & Hall & _).
  exists w1, names, ls. split; [done|]. split; [done|]. intros files.
  split_and!; [simpl; rewrite Hl; by unfold loop_start|done|].
  rewrite (line_of_count _ _ _ _ Hall), sequencer_length.
  apply Permutation_length, sort_by_name_perm.
Qed.

Lemma every_file_logged_witness :
  let self := Disk.show (PyStr (py "1")) "link" in
  let dir := Disk.lib_dir // py "Show" // py "Season 1" in
  let st := Disk.start (Disk.with_files ["ep01.mkv"; "gone.mkv"; "cover.jpg"]) in
  let src := Disk.src_dir in
  validated self (world st) ∧
  ∃ st', _do_transfer self st = (Ok (), st') ∧
  ∃ w1 names ls,
    fs_mkdir dir (world st) = (w1, None) ∧ fs_iterdir src w1 = inr names ∧
    let files := List.filter (eligible w1) ((λ n, src // n) <$> names) in
    log st' = log st ++ ls ∧
    Forall2 (line_of (py "Show") 1) (sequencer 1 (sort_by_name files)) ls ∧
    (length (List.filter is_info ls) + length (List.filter is_failure ls))%nat
    = length files.
Proof.
  intros self dir st src.
  assert (validated self (world st)) as Hvalid by (by vm_compute).
  assert (_do_transfer self st = (Ok (), (_do_transfer self st).2)) as Hrun
    by (apply pair_of_fst; vm_compute; reflexivity).
  split; [exact Hvalid|]. eexists. split; [exact Hrun|].
  exact (every_file_logged self st _ Hvalid Hrun).
Defined.

(** ** A transfer that fails *)

(** X10. When the destination of a file is absent, the loop body does not
    raise. It makes the transfer the transfer type names; if the transfer
    raises, the failure is logged with the exception and the count stays,
    otherwise the success is logged and the count goes up by one. With a
    transfer type that names no transfer the file system is left alone
    and the file still counts as a success. *)
Theorem transfer_error_contained {W} `{!FileSystem W} (media tt : pystr) (n : Z)
    (dir f : path) (ep sc : Z) (st : state W) :
  let dst := destination media n dir f ep in
  fs_exists dst (world st) = false →
  let r := transfer_file media tt n dir f ep sc st in
  let done_ := InfoTransferred (name f) (name dst) in
  match op_of tt with
  | Some op =>
    let t := fs_transfer op f dst (world st) in
    world r.2 = t.1 ∧ calls r.2 = calls st ++ [CExists dst; CTransfer op f dst] ∧
    posts r.2 = posts st ∧
    match t.2 with
    | None => r.1 = Ok (sc + 1) ∧ log r.2 = log st ++ [done_]
    | Some e => r.1 = Ok sc ∧ log r.2 = log st ++ [ErrorFailed (name f) e]
    end
  | None =>
    r.1 = Ok (sc + 1) ∧ world r.2 = world st ∧ calls r.2 = calls st ++ [CExists dst] ∧
    log r.2 = log st ++ [done_] ∧ posts r.2 = posts st
  end.
Proof.
  intros dst Hex r done_.
  assert (name dst = new_filename media n ep (str_lower (suffix f))) as Hname
    by apply name_joinpath.
  subst r done_. rewrite Hname. clear Hname.
  unfold destination in dst. unfold transfer_file, new_filename. fold dst.
  unfold path_exists, query, mbind, M_bind. simpl. rewrite Hex. simpl.
  unfold op_of, try_except, transfer_by_type, transfer, command, logger, mbind, M_bind,
    mret, M_ret.
  repeat case_bool_decide; simpl;
    try (match goal with |- context [fs_transfer ?o ?a ?b ?x] =>
           destruct (fs_transfer o a b x) as [w2 [e|]] eqn:Htrans; simpl in *
         end);
    norm_state; by split_and!.
Qed.

Lemma transfer_error_contained_witness :
  let dir := Disk.lib_dir // py "Show" // py "Season 1" in
  let f := Disk.src_dir // py "ep01.mkv" in
  let dst := destination (py "Show") 1 dir f 1 in
  let st := Disk.start (Disk.with_files ["ep01.mkv"]) in
  let r := transfer_file (py "Show") (py "copy") 1 dir f 1 0 st in
  fs_exists dst (world st) = false ∧
  op_of (py "copy") = Some Copy2 ∧
  (fs_transfer Copy2 f dst (world st)).2 = Some (Exn (py "FileNotFoundError")) ∧
  match op_of (py "copy") with
  | Some op =>
    let t := fs_transfer op f dst (world st) in
    world r.2 = t.1 ∧ calls r.2 = calls st ++ [CExists dst; CTransfer op f dst] ∧
    posts r.2 = posts st ∧
    match t.2 with
    | None => r.1 = Ok (0 + 1) ∧ log r.2 = log st ++ [InfoTransferred (name f) (name dst)]
    | Some e => r.1 = Ok 0 ∧ log r.2 = log st ++ [ErrorFailed (name f) e]
    end
  | None =>
    r.1 = Ok (0 + 1) ∧ world r.2 = world st ∧ calls r.2 = calls st ++ [CExists dst] ∧
    log r.2 = log st ++ [InfoTransferred (name f) (name dst)] ∧ posts r.2 = posts st
  end.
Proof.
  intros dir f dst st r.
  assert (fs_exists dst (world st) = false) as Hex by (by vm_compute).
  split; [exact Hex|]. split; [by vm_compute|]. split; [by vm_compute|].
  exact (transfer_error_contained (py "Show") (py "copy") 1 dir f 1 0 st Hex).
Defined.

(** ** A source with nothing to transfer *)

Lemma pair_of_snd {A B} (r : A * B) (b : B) : r.2 = b → r = (r.1, b).
Proof. destruct r; simpl; congruence. Qed.

(** X11. When the source directory has no eligible entry (it is empty,
    or holds only directories and files of other kinds), a run that
    passes the checks still makes the season directory, asks about each
    entry, transfers and logs nothing, and posts the summary with a count
    of 0. *)
Theorem nothing_to_transfer {W} `{!FileSystem W} (self : plugin) (st : state W)
    (w1 : W) (names : list (list Z)) :
  let src := Path (field_str (_source_path self)) in
  let n := default 1 (py_int (_season self)) in
  let media := field_str (_media_name self) in
  let dir := Path (field_str (_target_path self)) // media
               // (py "Season " ++ str_of_int n) in
  validated self (world st) →
  fs_mkdir dir (world st) = (w1, None) → fs_iterdir src w1 = inr names →
  Forall (λ entry, eligible w1 (src // entry) = false) names →
  _do_transfer self st =
  (Ok (),
   {| world := w1;
      calls := calls st ++ [CExists src; CIsDir src; CMkdir dir; CIterdir src]
                 ++ (CIsFile <$> ((λ entry, src // entry) <$> names));
      log := log st;
      posts := posts st ++
        [{| title := py "强制整理成功";
            text := summary media 0 (_transfer_type self) |}] |}).
Proof.
  intros src n media dir Hvalid Hmk Hit Hnone.
  rewrite (do_transfer_validated self st Hvalid). simpl. fold src n media dir.
  rewrite Hmk, Hit.
  assert (List.filter (eligible w1) ((λ entry, src // entry) <$> names) = []) as ->.
  { clear Hit. induction Hnone as [|entry names Hentry _ IH]; simpl; [done|].
    by rewrite Hentry. }
  reflexivity.
Qed.

Lemma nothing_to_transfer_witness :
  let self := Disk.show (PyStr (py "2")) "move" in
  let st := Disk.start (Disk.with_files ["cover.jpg"]) in
  let dir := Disk.lib_dir // py "Show" // py "Season 2" in
  let w1 := (fs_mkdir dir (world st)).1 in
  (validated self (world st) ∧ fs_mkdir dir (world st) = (w1, None) ∧
   fs_iterdir Disk.src_dir w1 = inr [py "cover.jpg"] ∧
   summary (py "Show") 0 (py "move")
   = py "剧集: Show" ++ [10] ++ py "共处理: 0 个文件" ++ [10] ++ py "方式: move") ∧
  _do_transfer self st =
  (Ok (),
   {| world := w1;
      calls := calls st ++
               [CExists Disk.src_dir; CIsDir Disk.src_dir; CMkdir dir;
                CIterdir Disk.src_dir]
               ++ (CIsFile <$> ((λ entry, Disk.src_dir // entry) <$> [py "cover.jpg"]));
      log := log st;
      posts := posts st ++
               [{| title := py "强制整理成功";
                   text := summary (py "Show") 0 (py "move") |}] |}).
Proof.
  intros self st dir w1.
  assert (validated self (world st)) as Hvalid by (by vm_compute).
  assert (fs_mkdir dir (world st) = (w1, None)) as Hmk
    by (apply pair_of_snd; vm_compute; reflexivity).
  assert (fs_iterdir Disk.src_dir w1 = inr [py "cover.jpg"]) as Hit
    by (vm_compute; reflexivity).
  split; [split_and!; [exact Hvalid|exact Hmk|exact Hit|by vm_compute]|].
  apply (nothing_to_transfer self st w1 [py "cover.jpg"] Hvalid Hmk Hit).
  repeat constructor.
Defined.

(** ** Which names are eligible *)

Lemma lower_char_dot c : lower_char c = 46 ↔ c = 46.
Proof.
  unfold lower_char. split; [|by intros ->].
  destruct (Z.leb_spec 65 c), (Z.leb_spec c 90); simpl; try lia;
    destruct (Z.eqb_spec c 8490); lia.
Qed.

Lemma str_lower_no_dot s : 46 ∉ str_lower s → 46 ∉ s.
Proof.
  intros Hnot Hin. apply Hnot. unfold str_lower.
  apply list_elem_of_fmap. exists 46. split; [symmetry; by apply lower_char_dot|done].
Qed.

(** The shape of a string whose lowercase is one of the extensions. *)
Lemma exts_shape_lower ext :
  str_lower ext ∈ _exts → ∃ rest, ext = 46 :: rest ∧ rest ≠ [] ∧ 46 ∉ rest.
Proof.
  intros (_ & rest' & Heq & Hne & Hdot)%exts_shape.
  destruct ext as [|c rest]; [done|]. unfold str_lower in Heq. simpl in Heq.
  injection Heq as Hc Hrest'. apply (proj1 (lower_char_dot c)) in Hc. subst c rest'.
  exists rest. split_and!; [done| |].
  - by destruct rest.
  - by apply str_lower_no_dot.
Qed.

Lemma suffix_ext_lower (dir : path) (base ext : pystr) :
  base ≠ [] → str_lower ext ∈ _exts → suffix (dir // (base ++ ext)) = ext.
Proof.
  intros Hbase (rest & -> & Hrest & Hdot)%exts_shape_lower.
  unfold suffix, has_suffix. rewrite name_joinpath, rfind_dot_app by done.
  rewrite bool_decide_true.
  - by rewrite drop_app_length.
  - rewrite length_app. simpl. destruct base, rest; simpl in *; try done; lia.
Qed.

Lemma exts_nonempty : [] ∉ _exts.
Proof. apply (bool_decide_unpack _). by vm_compute. Qed.

(** X12. Whether an entry of the source directory is transferred depends
    on its name as follows. A name that ends with one of the extensions,
    in any letter case, after at least one other character, is eligible
    exactly when the entry is a file. A name that is nothing but an
    extension (a hidden file such as [.mkv]) and a name without a dot are
    never eligible. *)
Theorem eligible_by_name {W} `{!FileSystem W} (w : W) (dir : path) :
  (∀ base ext, base ≠ [] → str_lower ext ∈ _exts →
     eligible w (dir // (base ++ ext)) = fs_is_file (dir // (base ++ ext)) w) ∧
  (∀ ext, str_lower ext ∈ _exts → eligible w (dir // ext) = false) ∧
  (∀ entry, 46 ∉ entry → eligible w (dir // entry) = false).
Proof.
  unfold eligible. split_and!.
  - intros base ext Hbase Hext. rewrite suffix_ext_lower by done.
    rewrite bool_decide_true by done. apply andb_true_r.
  - intros ext (rest & -> & Hrest & Hdot)%exts_shape_lower.
    unfold suffix, has_suffix. rewrite name_joinpath.
    change (46 :: rest) with ([] ++ 46 :: rest).
    rewrite (rfind_dot_app [] rest Hdot). simpl. apply andb_false_r.
  - intros entry Hdot. unfold suffix, has_suffix.
    rewrite name_joinpath, rfind_dot_None by done.
    rewrite bool_decide_false by apply exts_nonempty. apply andb_false_r.
Qed.

Lemma eligible_by_name_witness :
  let w := Disk.with_files ["Ep1.MKV"; ".mkv"; "README"] in
  eligible w (Disk.src_dir // (py "Ep1" ++ py ".MKV")) = true ∧
  eligible w (Disk.src_dir // py ".mkv") = false ∧
  eligible w (Disk.src_dir // py "README") = false.
Proof.
  intros w.
  destruct (eligible_by_name w Disk.src_dir) as (Hext & Hhidden & Hplain).
  split_and!.
  - rewrite Hext; [by vm_compute|done|].
    apply (bool_decide_unpack _). by vm_compute.
  - apply Hhidden. apply (bool_decide_unpack _). by vm_compute.
  - apply Hplain. apply (bool_decide_unpack _). by vm_compute.
Defined.

(** ** Decimal numbers in the names *)

Lemma pretty_N_char_code d :
  (d < 10)%N → Z.of_N (N_of_ascii (pretty_N_char d)) = 48 + Z.of_N d.
Proof.
  intros Hd.
  assert (d = 0 ∨ d = 1 ∨ d = 2 ∨ d = 3 ∨ d = 4 ∨ d = 5 ∨ d = 6 ∨ d = 7 ∨ d = 8 ∨ d = 9)%N
    as Hcases by lia.
  repeat (destruct Hcases as [->|Hcases]; [done|]). by subst d.
Qed.

#[local] Transparent py.

Lemma py_digit_cons d s :
  (d < 10)%N → py (String (pretty_N_char d) s) = (48 + Z.of_N d) :: py s.
Proof.
  intros Hd. unfold py, bytes_of. simpl. rewrite (pretty_N_char_code d Hd).
  destruct (Z.ltb_spec (48 + Z.of_N d) 128); [done|lia].
Qed.

Lemma py_dash s : py (String "-" s) = 45 :: py s.
Proof. unfold py, bytes_of. by simpl. Qed.

#[global] Opaque py.

Lemma py_pretty_N_go x s : py (pretty_N_go x s) = py (pretty_N_go x "") ++ py s.
Proof.
  revert s. induction (N.lt_wf_0 x) as [x _ IH]; intros s.
  assert (x = 0 ∨ 0 < x)%N as [->|Hpos] by lia.
  { by rewrite !pretty_N_go_0. }
  rewrite !(pretty_N_go_step x) by done.
  assert (x `mod` 10 < 10)%N as Hd by (by apply N.mod_lt).
  assert (x `div` 10 < x)%N as Hlt by (by apply N.div_lt).
  rewrite (IH _ Hlt (String _ s)), (IH _ Hlt (String _ "")).
  rewrite !py_digit_cons by done. by rewrite <-app_assoc.
Qed.

Lemma pretty_Z_pos n : 0 < n → pretty n = pretty_N_go (Z.to_N n) "".
Proof.
  destruct n as [|p|p]; try lia. intros _.
  unfold pretty, pretty_Z, pretty, pretty_positive, pretty, pretty_N.
  by case_decide.
Qed.

Lemma str_of_int_small n : 0 ≤ n < 10 → str_of_int n = [48 + n].
Proof.
  intros Hn.
  assert (n = 0 ∨ n = 1 ∨ n = 2 ∨ n = 3 ∨ n = 4 ∨ n = 5 ∨ n = 6 ∨ n = 7 ∨ n = 8 ∨ n = 9)
    as Hcases by lia.
  repeat (destruct Hcases as [->|Hcases]; [by vm_compute|]). subst n. by vm_compute.
Qed.

Lemma str_of_int_step n :
  10 ≤ n → str_of_int n = str_of_int (n `div` 10) ++ [48 + n `mod` 10].
Proof.
  intros Hn. unfold str_of_int.
  assert (0 < n `div` 10) as Hq by (apply Z.div_str_pos; lia).
  rewrite !pretty_Z_pos by lia.
  rewrite pretty_N_go_step by lia. rewrite py_pretty_N_go.
  assert (Z.to_N n `mod` 10 < 10)%N as Hd by (by apply N.mod_lt).
  rewrite py_digit_cons by done.
  rewrite Z2N.inj_div by lia. do 3 f_equal.
  change 10%N with (Z.to_N 10). rewrite <-Z2N.inj_mod by lia.
  rewrite Z2N.id; [done|]. apply Z.mod_pos_bound. lia.
Qed.

Lemma str_of_int_digits n : 0 ≤ n → Forall (λ c, 48 ≤ c ≤ 57) (str_of_int n).
Proof.
  revert n. apply (Zlt_0_ind (λ n, Forall (λ c, 48 ≤ c ≤ 57) (str_of_int n))).
  intros n IH Hn. destruct (Z_lt_le_dec n 10) as [Hsmall|Hbig].
  - rewrite str_of_int_small by lia. repeat constructor; lia.
  - rewrite str_of_int_step by done. apply Forall_app. split.
    + apply IH. split; [apply Z.div_pos; lia|apply Z.div_lt; lia].
    + pose proof (Z.mod_pos_bound n 10). repeat constructor; lia.
Qed.

Lemma str_of_int_nonempty n : 0 ≤ n → str_of_int n ≠ [].
Proof.
  intros Hn. destruct (Z_lt_le_dec n 10) as [Hsmall|Hbig].
  - by rewrite str_of_int_small by lia.
  - rewrite str_of_int_step by done. by intros [_ ?]%app_eq_nil.
Qed.

Lemma str_of_int_inj n m : 0 ≤ n → 0 ≤ m → str_of_int n = str_of_int m → n = m.
Proof.
  intros Hn. revert n Hn m.
  apply (Zlt_0_ind (λ n, ∀ m, 0 ≤ m → str_of_int n = str_of_int m → n = m)).
  intros n IH Hn m Hm.
  destruct (Z_lt_le_dec n 10) as [Hsmall|Hbig], (Z_lt_le_dec m 10) as [Hsmall'|Hbig'].
  - rewrite !str_of_int_small by lia. intros [= ?]. lia.
  - rewrite str_of_int_small, (str_of_int_step m) by lia.
    intros Heq. change [48 + n] with ([] ++ [48 + n]) in Heq.
    apply app_inj_tail in Heq as [Heq _].
    destruct (str_of_int_nonempty (m `div` 10)); [apply Z.div_pos; lia|done].
  - rewrite (str_of_int_step n), (str_of_int_small m) by lia.
    intros Heq. change [48 + m] with ([] ++ [48 + m]) in Heq.
    apply app_inj_tail in Heq as [Heq _].
    destruct (str_of_int_nonempty (n `div` 10)); [apply Z.div_pos; lia|done].
  - rewrite (str_of_int_step n), (str_of_int_step m) by lia.
    intros [Hq Hr]%app_inj_tail.
    apply IH in Hq; [|split; [apply Z.div_pos; lia|apply Z.div_lt; lia]|apply Z.div_pos; lia].
    rewrite (Z.div_mod n 10), (Z.div_mod m 10) by lia. lia.
Qed.

Lemma format_02d_digits n : 0 ≤ n → Forall (λ c, 48 ≤ c ≤ 57) (format_02d n).
Proof.
  intros Hn. destruct (Z_lt_le_dec n 10) as [Hsmall|Hbig].
  - rewrite format_02d_small by lia. apply Forall_app. split.
    + assert (py "0" = [48]) as -> by (by vm_compute). repeat constructor; lia.
    + by apply str_of_int_digits.
  - rewrite format_02d_large by lia. by apply str_of_int_digits.
Qed.

Lemma format_02d_inj n m : 0 ≤ n → 0 ≤ m → format_02d n = format_02d m → n = m.
Proof.
  assert (py "0" = [48]) as Hzero by (by vm_compute).
  assert (∀ a b, 0 ≤ a < 10 → 10 ≤ b → py "0" ++ str_of_int a ≠ str_of_int b) as Hmixed.
  { intros a b Ha Hb. rewrite Hzero, str_of_int_small, (str_of_int_step b) by lia.
    change ([48] ++ [48 + a]) with ([48] ++ [48 + a]).
    intros [Hq _]%(app_inj_tail [48]).
    assert (str_of_int (b `div` 10) = str_of_int 0) as Heq by (by rewrite <-Hq).
    apply str_of_int_inj in Heq; [|apply Z.div_pos; lia|lia].
    assert (0 < b `div` 10) by (apply Z.div_str_pos; lia). lia. }
  intros Hn Hm.
  destruct (Z_lt_le_dec n 10) as [Hsmall|Hbig], (Z_lt_le_dec m 10) as [Hsmall'|Hbig'].
  - rewrite !format_02d_small by lia. intros Heq%app_inv_head. by apply str_of_int_inj.
  - rewrite format_02d_small, (format_02d_large m) by lia. intros Heq.
    by destruct (Hmixed n m).
  - rewrite (format_02d_large n), format_02d_small by lia. intros Heq.
    by destruct (Hmixed m n).
  - rewrite !format_02d_large by lia. by apply str_of_int_inj.
Qed.

Lemma split_at_first {A} (x : A) (l1 l2 r1 r2 : list A) :
  x ∉ l1 → x ∉ l2 → l1 ++ x :: r1 = l2 ++ x :: r2 → l1 = l2 ∧ r1 = r2.
Proof.
  revert l2. induction l1 as [|a l1 IH]; intros [|b l2] H1 H2; simpl.
  - by intros [= ->].
  - intros [= -> _]. destruct H2. by left.
  - intros [= -> _]. destruct H1. by left.
  - intros [= -> Heq]. apply IH in Heq as [-> ->]; [done|..].
    + intros ?. apply H1. by right.
    + intros ?. apply H2. by right.
Qed.

Lemma sequencer_nonneg fb files f ep : 0 ≤ fb → (f, ep) ∈ sequencer fb files → 0 ≤ ep.
Proof.
  revert fb. induction files as [|g files IH]; intros fb Hfb; simpl.
  { by intros ?%elem_of_nil. }
  destruct (_get_episode (stem g)) as [k|] eqn:Hep.
  - intros [[= -> ->]|Hin]%elem_of_cons; [|by eapply IH].
    by apply (get_episode_nonneg (stem g)).
  - intros [[= -> ->]|Hin]%elem_of_cons; [done|]. eapply (IH (fb + 1)); [lia|done].
Qed.

(** X13. Within a run, the destinations of two eligible files are the
    same exactly when the files are given the same episode and have the
    same extension up to letter case: a file replaces the destination of
    another file of the run in no other case. *)
Theorem destinations_collide {W} `{!FileSystem W} (w : W) (media : pystr) (n : Z)
    (dir : path) (files : list path) (f g : path) (ep ep' : Z) :
  Forall (λ f, eligible w f = true) files →
  (f, ep) ∈ sequencer 1 files → (g, ep') ∈ sequencer 1 files →
  destination media n dir f ep = destination media n dir g ep' ↔
  ep = ep' ∧ str_lower (suffix f) = str_lower (suffix g).
Proof.
  intros Hel Hf Hg.
  assert (∀ h k, (h, k) ∈ sequencer 1 files →
                 0 ≤ k ∧ ∃ rest, str_lower (suffix h) = 46 :: rest) as Hjob.
  { intros h k Hin. split; [by eapply (sequencer_nonneg 1 files)|].
    apply sequencer_files in Hin. rewrite Forall_forall in Hel.
    apply Hel, andb_true_iff in Hin as [_ Hext%bool_decide_eq_true].
    apply exts_shape in Hext as (_ & rest & -> & _). by exists rest. }
  destruct (Hjob f ep Hf) as (Hep & r1 & Hr1), (Hjob g ep' Hg) as (Hep' & r2 & Hr2).
  split; [|intros [-> Hext]; unfold destination; by rewrite Hext].
  unfold destination, joinpath. intros [_ Heq]%app_inj_tail.
  do 4 apply app_inv_head in Heq. rewrite Hr1, Hr2 in Heq. rewrite Hr1, Hr2.
  assert (∀ k, 0 ≤ k → 46 ∉ format_02d k) as Hnodot.
  { intros k Hk Hin. pose proof (format_02d_digits k Hk) as Hall.
    rewrite Forall_forall in Hall. specialize (Hall _ Hin). lia. }
  apply split_at_first in Heq as [Hfmt ->]; [|by apply Hnodot..].
  split; [|done]. by apply format_02d_inj.
Qed.

Lemma destinations_collide_witness :
  let w := Disk.with_files ["a.mkv"; "e1.mkv"; "e1.srt"] in
  let src := Disk.src_dir in
  let files := [src // py "a.mkv"; src // py "e1.mkv"; src // py "e1.srt"] in
  let dir := Disk.lib_dir // py "Show" // py "Season 1" in
  (Forall (λ f, eligible w f = true) files ∧
   (src // py "a.mkv", 1) ∈ sequencer 1 files ∧
   (src // py "e1.mkv", 1) ∈ sequencer 1 files ∧
   (src // py "e1.srt", 1) ∈ sequencer 1 files) ∧
  destination (py "Show") 1 dir (src // py "a.mkv") 1
  = destination (py "Show") 1 dir (src // py "e1.mkv") 1 ∧
  destination (py "Show") 1 dir (src // py "e1.mkv") 1
  ≠ destination (py "Show") 1 dir (src // py "e1.srt") 1.
Proof.
  intros w src files dir.
  assert (Forall (λ f, eligible w f = true) files) as Hel.
  { repeat (apply List.Forall_cons; [by vm_compute|]). apply List.Forall_nil. }
  assert (∀ j, bool_decide (j ∈ sequencer 1 files) = true → j ∈ sequencer 1 files) as Hin.
  { intros j. apply bool_decide_eq_true. }
  assert ((src // py "a.mkv", 1) ∈ sequencer 1 files) as Ha by (apply Hin; by vm_compute).
  assert ((src // py "e1.mkv", 1) ∈ sequencer 1 files) as Hm by (apply Hin; by vm_compute).
  assert ((src // py "e1.srt", 1) ∈ sequencer 1 files) as Hs by (apply Hin; by vm_compute).
  split; [done|]. split.
  - apply (destinations_collide w (py "Show") 1 dir files _ _ 1 1 Hel Ha Hm).
    split; [done|]. by vm_compute.
  - intros Heq.
    apply (destinations_collide w (py "Show") 1 dir files _ _ 1 1 Hel Hm Hs) in Heq
      as [_ Hext]. by vm_compute in Hext.
Defined.

(** ** The new name read back *)

Lemma space_not_digit c : is_space c = true → is_digit c = false.
Proof.
  intros Hs. destruct (is_digit c) eqn:Hd; [|done].
  apply digit_not_space in Hd. congruence.
Qed.

Lemma re_digits_None_inv c s : re_digits (c :: s) = None → is_digit c = false.
Proof.
  unfold re_digits. simpl. destruct (is_digit c); [|done]. by destruct (span is_digit s).
Qed.

(** The text that follows the media name in a new name: [" -"] and the
    rest. *)
Lemma re_ws_digits_dash t : re_ws_digits (32 :: 45 :: t) = None.
Proof.
  assert (re_ws_digits (45 :: t) = None) as Hdash by (by apply re_ws_digits_no_start).
  change (re_ws_digits (32 :: 45 :: t))
    with (match re_ws_digits (45 :: t) with
          | Some g => Some g
          | None => re_digits (32 :: 45 :: t)
          end).
  rewrite Hdash. by apply re_digits_no_digit.
Qed.

Lemma re_ws_digits_app_None s t :
  re_ws_digits s = None → re_ws_digits (s ++ 32 :: 45 :: t) = None.
Proof.
  induction s as [|c s IH]; [intros _; apply re_ws_digits_dash|].
  simpl. destruct (is_space c) eqn:Hc.
  - destruct (re_ws_digits s); [done|]. intros _. rewrite IH by done.
    apply re_digits_no_digit. simpl. by apply space_not_digit.
  - intros Hd%re_digits_None_inv. by apply re_digits_no_digit.
Qed.

Lemma re_marker_here_app_None s t :
  s ≠ [] → re_marker_here s = None → re_marker_here (s ++ 32 :: 45 :: t) = None.
Proof.
  destruct s as [|c s1]; [done|]. intros _. unfold re_marker_here. simpl app.
  destruct (re_ws_digits s1) as [g|] eqn:Hs1.
  - destruct (is_e c) eqn:He; [done|].
    destruct (c =? di); [done|]. done.
  - rewrite (re_ws_digits_app_None s1 t Hs1).
    destruct s1 as [|c2 s2]; simpl app.
    + change (is_p 32) with false. by destruct (is_e c), (c =? di).
    + destruct (re_ws_digits s2) as [g|] eqn:Hs2.
      * destruct (is_e c), (is_p c2), (c =? di); try done.
      * rewrite (re_ws_digits_app_None s2 t Hs2).
        by destruct (is_e c), (is_p c2), (c =? di).
Qed.

Lemma re_search_marker_app_None s t :
  re_search_marker s = None →
  re_search_marker (s ++ 32 :: 45 :: t) = re_search_marker (32 :: 45 :: t).
Proof.
  induction s as [|c s IH]; [done|].
  rewrite re_search_marker_eq.
  destruct (re_marker_here (c :: s)) as [g|] eqn:Hhere; [done|]. intros Hrest.
  rewrite re_search_marker_eq.
  rewrite (re_marker_here_app_None (c :: s) t) by done. simpl app. by apply IH.
Qed.

Lemma re_search_marker_skip pre s :
  Forall (λ c, is_e c = false ∧ (c =? di) = false) pre →
  re_search_marker (pre ++ s) = re_search_marker s.
Proof.
  induction 1 as [|c pre [He Hdi] _ IH]; [done|].
  rewrite re_search_marker_eq. simpl app. unfold re_marker_here. by rewrite He, Hdi.
Qed.

Lemma ascii_digit c : 48 ≤ c ≤ 57 → decimal_value c = Some (c - 48).
Proof.
  intros Hc.
  assert (c = 48 ∨ c = 49 ∨ c = 50 ∨ c = 51 ∨ c = 52 ∨ c = 53 ∨ c = 54 ∨ c = 55
          ∨ c = 56 ∨ c = 57) as Hcases by lia.
  repeat (destruct Hcases as [->|Hcases]; [by vm_compute|]). subst c. by vm_compute.
Qed.

Lemma int_digits_snoc l c :
  int_digits (l ++ [c]) = 10 * int_digits l + default 0 (decimal_value c).
Proof. unfold int_digits. by rewrite fold_left_app. Qed.

Lemma int_digits_str_of_int n : 0 ≤ n → int_digits (str_of_int n) = n.
Proof.
  revert n. apply (Zlt_0_ind (λ n, int_digits (str_of_int n) = n)).
  intros n IH Hn. destruct (Z_lt_le_dec n 10) as [Hsmall|Hbig].
  - rewrite str_of_int_small by lia. change [48 + n] with ([] ++ [48 + n]).
    rewrite int_digits_snoc, ascii_digit by lia. simpl. unfold int_digits. simpl. lia.
  - rewrite str_of_int_step by done. pose proof (Z.mod_pos_bound n 10).
    rewrite int_digits_snoc, ascii_digit by lia. simpl.
    rewrite IH by (split; [apply Z.div_pos; lia|apply Z.div_lt; lia]).
    rewrite (Z.div_mod n 10) at 3 by lia. lia.
Qed.

Lemma int_digits_format_02d n : 0 ≤ n → int_digits (format_02d n) = n.
Proof.
  intros Hn. destruct (Z_lt_le_dec n 10) as [Hsmall|Hbig].
  - rewrite format_02d_small, str_of_int_small by lia.
    assert (py "0" = [48]) as -> by (by vm_compute).
    rewrite int_digits_snoc, ascii_digit by lia. simpl.
    change (int_digits [48]) with 0. lia.
  - rewrite format_02d_large by lia. by apply int_digits_str_of_int.
Qed.

Lemma str_of_int_neg n : n < 0 → str_of_int n = 45 :: str_of_int (- n).
Proof.
  destruct n as [|p|p]; try lia. intros _. unfold str_of_int.
  change (pretty (Z.neg p)) with ("-" +:+ pretty (Z.pos p))%string.
  change (- Z.neg p) with (Z.pos p). apply py_dash.
Qed.

Lemma format_02d_no_marker n :
  Forall (λ c, is_e c = false ∧ (c =? di) = false) (format_02d n).
Proof.
  assert (∀ k, 0 ≤ k →
    Forall (λ c, is_e c = false ∧ (c =? di) = false) (str_of_int k)) as Hpos.
  { intros k Hk. eapply Forall_impl; [by apply str_of_int_digits|].
    intros c Hc. simpl in Hc. simpl. unfold is_e. change di with 31532.
    split; [apply orb_false_iff; split|]; apply Z.eqb_neq; lia. }
  destruct (Z_lt_le_dec n 0) as [Hneg|Hnn].
  - rewrite format_02d_large, str_of_int_neg by lia.
    constructor; [by vm_compute|]. apply Hpos. lia.
  - destruct (Z_lt_le_dec n 10) as [Hsmall|Hbig].
    + rewrite format_02d_small by lia. apply Forall_app. split; [|by apply Hpos].
      assert (py "0" = [48]) as -> by (by vm_compute). by repeat constructor.
    + rewrite format_02d_large by lia. by apply Hpos.
Qed.

Lemma is_digit_ascii c : 48 ≤ c ≤ 57 → is_digit c = true.
Proof. intros Hc. unfold is_digit. by rewrite ascii_digit. Qed.

Lemma stem_ext (dir : path) (base ext : pystr) :
  base ≠ [] → ext ∈ _exts → stem (dir // (base ++ ext)) = base.
Proof.
  intros Hbase (_ & rest & -> & Hrest & Hdot)%exts_shape.
  unfold stem, has_suffix. rewrite name_joinpath, rfind_dot_app by done.
  rewrite bool_decide_true.
  - by rewrite take_app_length.
  - rewrite length_app. simpl. destruct base, rest; simpl in *; try done; lia.
Qed.

(** X14. The name a file is given is read back by [_get_episode] as the
    episode it was given, when the media name itself holds no marker
    followed by digits: a run over a directory that an earlier run has
    filled gives every file its episode again. With a media name such as
    [Route 66] the number of the media name is read instead. *)
Theorem renamed_file_recognised :
  (∀ (media : pystr) (n : Z) (dir f : path) (ep : Z),
     (∀ i ds, ¬ marker_match_at media i ds) → 0 ≤ ep →
     str_lower (suffix f) ∈ _exts →
     _get_episode (stem (destination media n dir f ep)) = Some ep) ∧
  _get_episode (stem (destination (py "Route 66") 1 Disk.lib_dir
                        (Disk.src_dir // py "a.mkv") 5)) = Some 66.
Proof.
  split; [|by vm_compute].
  intros media n dir f ep Hmedia%re_search_marker_None Hep Hext. unfold destination.
  assert (py " - S" = 32 :: 45 :: [32; 83]) as Hsep by (by vm_compute).
  assert (py "E" = [69]) as HE by (by vm_compute).
  rewrite !(app_assoc _ _ (str_lower _)), stem_ext; [|rewrite Hsep; by destruct media|done].
  unfold _get_episode. rewrite Hsep. simpl app.
  rewrite (re_search_marker_app_None media _ Hmedia).
  change (32 :: 45 :: 32 :: 83 :: format_02d n ++ py "E" ++ format_02d ep)
    with ([32; 45; 32; 83] ++ format_02d n ++ py "E" ++ format_02d ep).
  rewrite app_assoc, re_search_marker_skip.
  - assert (re_marker_here (69 :: format_02d ep) = Some (format_02d ep)) as Hhere.
    { pose proof (re_marker_here_complete [69] [] (format_02d ep) []) as Hmatch.
      simpl app in Hmatch. rewrite app_nil_r in Hmatch. apply Hmatch.
      - apply (bool_decide_unpack _). by vm_compute.
      - constructor.
      - pose proof (format_02d_digits ep Hep) as Hall. intros Hnil.
        assert (length (format_02d ep) = 0%nat) as Hlen by (by rewrite Hnil).
        destruct (Z_lt_le_dec ep 10).
        + rewrite format_02d_small, length_app in Hlen by lia.
          assert (py "0" = [48]) as Hzero by (by vm_compute).
          rewrite Hzero in Hlen. simpl in Hlen. lia.
        + rewrite format_02d_large in Hnil by lia.
          by apply (str_of_int_nonempty ep).
      - eapply Forall_impl; [by apply format_02d_digits|]. intros c. apply is_digit_ascii.
      - done. }
    rewrite HE. simpl app. rewrite re_search_marker_eq, Hhere.
    by rewrite int_digits_format_02d.
  - apply Forall_app. split; [by repeat constructor|apply format_02d_no_marker].
Qed.

Lemma renamed_file_recognised_witness :
  let f := Disk.src_dir // py "a.mkv" in
  let dst := destination (py "Show") 1 (Disk.lib_dir // py "Show" // py "Season 1") f 5 in
  name dst = py "Show - S01E05.mkv" ∧ _get_episode (stem dst) = Some 5.
Proof.
  intros f dst. split; [by vm_compute|].
  apply (proj1 renamed_file_recognised (py "Show") 1 _ f 5).
  - apply re_search_marker_None. by vm_compute.
  - lia.
  - apply (bool_decide_unpack _). by vm_compute.
Defined.

(** ** The state the host reads *)

(** X15. After [init_plugin] with a configuration that is not empty,
    [get_state] gives the value stored under [enabled], and [None] when
    the key is absent; this holds whether a run was started or not and
    also when the run has raised. With no configuration or an empty one
    [get_state] gives what it gave before. *)
Theorem get_state_follows_config {W} `{!FileSystem W} (config : option (gmap string pyval))
    (self : attributes) (st : state W) (r : init_result W) :
  init_plugin config self st = Some r →
  get_state (new_self r) =
  match config with
  | Some c => if bool_decide (c = ∅) then get_state self else default PyNone (c !! "enabled")
  | None => get_state self
  end.
Proof.
  unfold init_plugin. destruct config as [c|]; [|by intros [= <-]].
  case_bool_decide; [by intros [= <-]|].
  destruct (py_truth _ && py_truth _); [|by intros [= <-]].
  destruct (plugin_of _) as [p|]; [|done].
  by destruct (_do_transfer p st).1; intros [= <-].
Qed.

Lemma get_state_follows_config_witness :
  let c : gmap string pyval := {["run_now" := PyBool true]} in
  let st := Disk.start (Disk.with_files ["ep01.mkv"]) in
  ∃ r, init_plugin (Some c) class_attributes st = Some r ∧
       get_state (new_self r) = PyNone.
Proof.
  intros c st.
  destruct (init_plugin (Some c) class_attributes st) as [r|] eqn:Hr.
  - exists r. split; [reflexivity|].
    exact (get_state_follows_config (Some c) class_attributes st r Hr).
  - exfalso. revert Hr. by vm_compute.
Defined.
